(** * Conway's Game of Life on a bounded grid (game-of-life.py)

    A shallow embedding of the class [GameOfLife]: the grid engine behind the
    plotting code.  The numpy arrays the engine creates live in a store of
    arrays addressed by references, because [get_grid] hands out the very
    array the engine works on and [populate_grid] writes into it in place.
    Exceptions are values of [result]; a method is a function from the state
    before the call to the outcome and the state after it, so that what an
    aborted call leaves behind can be stated.

    Of numpy the model has what the engine calls: [np.zeros], item access
    and assignment on a two-dimensional array of 64-bit integers, and
    [np.random.choice] over [[0, 1]] with the global generator as a stream of
    uniform samples.  A density is a rational number.

    The methods that draw ([print_grid], [_setup_axes], [draw_grid],
    [animate]) run over a second layer: the engine state, the rendering
    attributes ([fig], [ax], [im]) and the sequence of calls made to [print]
    and to pyplot, which are taken to return.

    The memory is unbounded: no allocation fails for lack of room. *)

From Stdlib Require Import ZArith QArith Lia Lqa.
From stdpp Require Import base list gmap.
Local Open Scope Z_scope.

(** ** Python values: exceptions, sequences, ranges *)

Inductive exn : Set := ValueError | IndexError | KeyError | OverflowError.

Inductive result (A : Type) : Type :=
  | Ok (a : A)
  | Raise (e : exn).
Arguments Ok {A} a.
Arguments Raise {A} e.

#[global] Instance result_ret : MRet result := λ A a, Ok a.
#[global] Instance result_bind : MBind result := λ A B f r,
  match r with
  | Ok a => f a
  | Raise e => Raise e
  end.

(** A [for] loop whose body updates the local variables [s] and may raise. *)
Fixpoint for_loop {A S : Type} (l : list A) (s : S) (body : S → A → result S)
    : result S :=
  match l with
  | [] => Ok s
  | x :: l' => s' ← body s x; for_loop l' s' body
  end.

(** [range(start, stop)]. *)
Definition range (start stop : Z) : list Z := seqZ start (stop - start).

(** Position [i] of a sequence of length [n]: a negative index counts from the
    end, and what is still out of range raises [IndexError]. *)
Definition index (n : nat) (i : Z) : result nat :=
  let k := if i <? 0 then i + Z.of_nat n else i in
  if (0 <=? k) && (k <? Z.of_nat n) then Ok (Z.to_nat k) else Raise IndexError.

(** [l[i]] *)
Definition getitem {A : Type} (l : list A) (i : Z) : result A :=
  k ← index (length l) i;
  match l !! k with
  | Some x => Ok x
  | None => Raise IndexError
  end.

(** [l[i] = x] *)
Definition setitem {A : Type} (l : list A) (i : Z) (x : A) : result (list A) :=
  k ← index (length l) i; Ok (<[k:=x]> l).

(** [d[k]] on a dictionary. *)
Definition dict_get `{Countable K} {V : Type} (d : gmap K V) (k : K) : result V :=
  match d !! k with
  | Some v => Ok v
  | None => Raise KeyError
  end.

(** ** numpy: two-dimensional arrays of dtype int *)

(** The rows of a two-dimensional array of 64-bit integers. *)
Abbreviation ndarray := (list (list Z)).

(** Arithmetic on numpy's int scalars wraps around at 64 bits. *)
Definition int64 (z : Z) : Z := (z + 2 ^ 63) mod 2 ^ 64 - 2 ^ 63.

(** [np.zeros(shape=(r, c), dtype=int)]: a negative dimension is a
    [ValueError], a dimension of zero is an empty array.  numpy also refuses,
    with a [ValueError], a shape beyond the size it can address; that limit
    is [numpy_size_limit] below and is not tested here: the array of a valid
    engine is within it, and where the dimensions come from the caller the
    theorems assume it. *)
Definition np_zeros (shape : Z * Z) : result ndarray :=
  let '(r, c) := shape in
  if (r <? 0) || (c <? 0) then Raise ValueError
  else Ok (replicate (Z.to_nat r) (replicate (Z.to_nat c) 0)).

(** The shapes numpy can address: the size in bytes of an [r] x [c] array of
    64-bit integers, counted over the dimensions that are not zero, fits a
    signed 64-bit integer. *)
Definition numpy_size_limit (r c : Z) : Prop :=
  8 * Z.max 1 r * Z.max 1 c < 2 ^ 63.

(** [a[r][c]] *)
Definition getitem2 (a : ndarray) (r c : Z) : result Z :=
  row ← getitem a r; getitem row c.

(** [a[r][c] = v]: [a[r]] is a view of row [r], so the write lands in [a]. *)
Definition setitem2 (a : ndarray) (r c v : Z) : result ndarray :=
  row ← getitem a r; row' ← setitem row c v; setitem a r row'.

(** ** The engine and the memory it runs in *)

Abbreviation loc := nat.

(** An instance of the class: [life_grid] refers to an array in memory. *)
Record GameOfLife : Type := {
  rows : Z;
  cols : Z;
  life_grid : loc;
  current_step : Z
}.

(** The arrays that exist, and the global generator of [np.random] as the
    uniform samples of [0, 1) it is still to hand out. *)
Record memory : Type := {
  arrays : gmap loc ndarray;
  random_state : nat → Q
}.

Record state : Type := {
  self : GameOfLife;
  mem : memory
}.

(** A computation over a store [S] that returns or raises; the store after a
    raise is the one the exception leaves behind. *)
Definition M (S A : Type) : Type := S → result A * S.

#[global] Instance M_ret {S} : MRet (M S) := λ A a s, (Ok a, s).
#[global] Instance M_bind {S} : MBind (M S) := λ A B f m s,
  match m s with
  | (Ok a, s') => f a s'
  | (Raise e, s') => (Raise e, s')
  end.

Definition lift {S A : Type} (r : result A) : M S A := λ s, (r, s).

(** A [for] loop whose body acts on the store. *)
Fixpoint for_each {S A : Type} (l : list A) (body : A → M S unit) : M S unit :=
  match l with
  | [] => mret tt
  | x :: l' => body x;; for_each l' body
  end.

(** A new array object. *)
Definition new_array (a : ndarray) : M memory loc := λ m,
  let l := fresh (dom (arrays m)) in
  (Ok l, {| arrays := <[l:=a]> (arrays m); random_state := random_state m |}).

(** The array a reference points to (a reference is never dangling). *)
Definition read_array (l : loc) : M memory ndarray := λ m,
  (Ok (default [] (arrays m !! l)), m).

Definition write_array (l : loc) (a : ndarray) : M memory unit := λ m,
  (Ok tt, {| arrays := <[l:=a]> (arrays m); random_state := random_state m |}).

(** [arr[r][c] = v] through a reference to the array: the position is found
    first ([IndexError] when there is none), then a value that does not fit
    64 bits is an [OverflowError], and only then is the array written. *)
Definition array_setitem2 (l : loc) (r c v : Z) : M memory unit :=
  a ← read_array l;
  a' ← lift (setitem2 a r c v);
  (if (- 2 ^ 63 <=? v) && (v <? 2 ^ 63) then mret tt else lift (Raise OverflowError));;
  write_array l a'.

(** [np.random.choice([0, 1], size=(r, c), p=[p0, p1])]: the probabilities
    are checked before anything is drawn (a negative one, or a sum other than
    one, is a [ValueError]); then cell [(i, j)] takes the next uniform sample
    [u] and is 0 when [u < p0] and 1 otherwise.  The density is a rational. *)
Definition np_random_choice01 (shape : Z * Z) (p0 p1 : Q) : M memory ndarray := λ m,
  let '(r, c) := shape in
  if negb (Qle_bool 0 p0) || negb (Qle_bool 0 p1) then (Raise ValueError, m)
  else if negb (Qeq_bool (p0 + p1) 1) then (Raise ValueError, m)
  else if (r <? 0) || (c <? 0) then (Raise ValueError, m)
  else
    let nr := Z.to_nat r in
    let nc := Z.to_nat c in
    let pick (k : nat) : Z := if Qle_bool p0 (random_state m k) then 1 else 0 in
    (Ok ((λ i, (λ j, pick (i * nc + j)%nat) <$> seq 0 nc) <$> seq 0 nr),
     {| arrays := arrays m;
        random_state := λ k, random_state m (k + nr * nc)%nat |}).

(** Run a computation on the memory of a state. *)
Definition in_mem {A : Type} (c : M memory A) : M state A := λ s,
  let '(r, m') := c (mem s) in (r, {| self := self s; mem := m' |}).

Definition get_self : M state GameOfLife := λ s, (Ok (self s), s).

Definition set_life_grid (l : loc) : M state unit := λ s,
  (Ok tt, {| self := {| rows := rows (self s); cols := cols (self s);
                        life_grid := l;
                        current_step := current_step (self s) |};
             mem := mem s |}).

Definition set_current_step (n : Z) : M state unit := λ s,
  (Ok tt, {| self := {| rows := rows (self s); cols := cols (self s);
                        life_grid := life_grid (self s);
                        current_step := n |};
             mem := mem s |}).

(** ** The methods of [GameOfLife] *)

(** [GameOfLife(rows, cols)]: when [np.zeros] raises, the caller gets the
    exception and no object. *)
Definition __init__ (rows cols : Z) : M memory GameOfLife :=
  a ← lift (np_zeros (rows, cols));
  l ← new_array a;
  mret {| rows := rows; cols := cols; life_grid := l; current_step := 0 |}.

Definition randomize (density : Q) : M state unit :=
  me ← get_self;
  a ← in_mem (np_random_choice01 (rows me, cols me) (1 - density)%Q density);
  l ← in_mem (new_array a);
  set_life_grid l;;
  set_current_step 0.

(** The caller receives the reference held in [life_grid]. *)
Definition get_grid : M state loc :=
  me ← get_self; mret (life_grid me).

Definition populate_grid (coords : list (Z * Z)) : M state unit :=
  for_each coords (λ '(r, c),
    me ← get_self;
    if (0 <=? r) && (r <? rows me) && (0 <=? c) && (c <? cols me) then
      in_mem (array_setitem2 (life_grid me) r c 1)
    else mret tt);;
  set_current_step 0.

(** The innermost two loops of [make_step]: the sum for cell [(rc, cc)]. *)
Definition sum_neighbors (g : ndarray) (rows cols rc cc : Z) : result Z :=
  for_loop [-1; 0; 1] 0 (λ sum_neighbors r,
    for_loop [-1; 0; 1] sum_neighbors (λ sum_neighbors c,
      if (r =? 0) && (c =? 0) then Ok sum_neighbors
      else
        let rn := rc + r in
        let cn := cc + c in
        if (0 <=? rn) && (rn <? rows) && (0 <=? cn) && (cn <? cols) then
          v ← getitem2 g rn cn; Ok (int64 (sum_neighbors + v))
        else Ok sum_neighbors)).

(** The first pair of loops: the dictionary [neighbors]. *)
Definition count_neighbors (g : ndarray) (rows cols : Z)
    : result (gmap (Z * Z) Z) :=
  for_loop (range 0 rows) ∅ (λ neighbors rc,
    for_loop (range 0 cols) neighbors (λ neighbors cc,
      n ← sum_neighbors g rows cols rc cc;
      Ok (<[(rc, cc):=n]> neighbors))).

(** The second pair of loops: [new_grid].  The conditions are evaluated as
    Python does, the right operand of [and] only when the left one holds. *)
Definition apply_rules (g : ndarray) (neighbors : gmap (Z * Z) Z) (rows cols : Z)
    : result ndarray :=
  zeros ← np_zeros (rows, cols);
  for_loop (range 0 rows) zeros (λ new_grid rc,
    for_loop (range 0 cols) new_grid (λ new_grid cc,
      survives ←
        (v ← getitem2 g rc cc;
         if v =? 1 then
           n ← dict_get neighbors (rc, cc); Ok ((n =? 2) || (n =? 3))
         else Ok false);
      if survives : bool then setitem2 new_grid rc cc 1
      else
        born ←
          (v ← getitem2 g rc cc;
           if v =? 0 then n ← dict_get neighbors (rc, cc); Ok (n =? 3)
           else Ok false);
        if born : bool then setitem2 new_grid rc cc 1
        else setitem2 new_grid rc cc 0)).

(** [g] is read while [new_grid], another array, is filled: the array [g]
    refers to is the same from the first read to the last. *)
Definition make_step : M state unit :=
  me ← get_self;
  let g := life_grid me in
  let cols := cols me in
  let rows := rows me in
  set_current_step (current_step me + 1);;
  gv ← in_mem (read_array g);
  neighbors ← lift (count_neighbors gv rows cols);
  new_grid ← lift (apply_rules gv neighbors rows cols);
  l ← in_mem (new_array new_grid);
  set_life_grid l.

Definition make_n_steps (n : Z) : M state unit :=
  for_each (range 1 (n + 1)) (λ _, make_step).

(** ** The methods that draw *)

(** The figures, axes and images of pyplot are known by the order in which
    they were made. *)
Abbreviation handle := nat.

(** The calls the class makes to [print] and to pyplot, with the arguments
    that come from the engine; the constants of styling (colours, line
    widths, figure size) are left out.  The data of an image are the
    contents of the array at the time of the call. *)
Inductive call : Type :=
  | print (data : ndarray)
  | plt_ion
  | plt_ioff
  | plt_show
  | plt_tight_layout
  | plt_subplots (fig ax : handle)
  | plt_pause (interval : Q)
  | ax_imshow (ax : handle) (data : ndarray) (extent : list Z) (im : handle)
  | ax_set_xticks (ax : handle) (ticks : list Z) (minor : bool)
  | ax_set_yticks (ax : handle) (ticks : list Z) (minor : bool)
  | ax_grid (ax : handle)
  | ax_set_xlim (ax : handle) (lo hi : Z)
  | ax_set_ylim (ax : handle) (lo hi : Z)
  | ax_set_aspect (ax : handle)
  | ax_tick_params (ax : handle)
  | ax_set_title (ax : handle) (generation : Z)
  | im_set_data (im : handle) (data : ndarray)
  | canvas_draw (fig : handle).

(** The attributes [self.fig], [self.ax] and [self.im]: [None] until a
    method stores a handle. *)
Record attributes : Type := {
  fig : option handle;
  ax : option handle;
  im : option handle
}.

(** The engine together with its drawing attributes, the calls made so far
    and the number of pyplot objects made so far. *)
Record ui : Type := {
  engine : state;
  drawing : attributes;
  calls : list call;
  objects : nat
}.

(** A drawing method raises what the engine raises or, on an attribute of
    [None], an [AttributeError]. *)
Inductive error : Set :=
  | engine_error (e : exn)
  | AttributeError.

Inductive outcome (A : Type) : Type :=
  | Returns (a : A)
  | Raises (e : error).
Arguments Returns {A} a.
Arguments Raises {A} e.

Definition UI (A : Type) : Type := ui → outcome A * ui.

#[global] Instance UI_ret : MRet UI := λ A a u, (Returns a, u).
#[global] Instance UI_bind : MBind UI := λ A B f m u,
  match m u with
  | (Returns a, u') => f a u'
  | (Raises e, u') => (Raises e, u')
  end.

Fixpoint for_each_ui {A : Type} (l : list A) (body : A → UI unit) : UI unit :=
  match l with
  | [] => mret tt
  | x :: l' => body x;; for_each_ui l' body
  end.

(** A method of the engine, called from a drawing method. *)
Definition in_engine {A : Type} (c : M state A) : UI A := λ u,
  let '(r, s') := c (engine u) in
  (match r with Ok a => Returns a | Raise e => Raises (engine_error e) end,
   {| engine := s'; drawing := drawing u; calls := calls u; objects := objects u |}).

Definition emit (c : call) : UI unit := λ u,
  (Returns tt,
   {| engine := engine u; drawing := drawing u; calls := calls u ++ [c];
      objects := objects u |}).

Definition new_object : UI handle := λ u,
  (Returns (objects u),
   {| engine := engine u; drawing := drawing u; calls := calls u;
      objects := S (objects u) |}).

Definition get_drawing : UI attributes := λ u, (Returns (drawing u), u).

Definition set_drawing (d : attributes) : UI unit := λ u,
  (Returns tt,
   {| engine := engine u; drawing := d; calls := calls u; objects := objects u |}).

(** The contents of the array [self.life_grid] refers to. *)
Definition life_grid_data : UI ndarray :=
  in_engine (me ← get_self; in_mem (read_array (life_grid me))).

(** [fig, ax = plt.subplots(figsize=(6,6))] *)
Definition plt_subplots_call : UI (handle * handle) :=
  f ← new_object; a ← new_object; emit (plt_subplots f a);; mret (f, a).

(** [self.im.set_data(self.life_grid)] *)
Definition self_im_set_data : UI unit :=
  d ← get_drawing;
  match im d with
  | None => λ u, (Raises AttributeError, u)
  | Some h => g ← life_grid_data; emit (im_set_data h g)
  end.

Definition print_grid : UI unit :=
  g ← life_grid_data; emit (print g).

Definition _setup_axes (ax0 : handle) : UI unit :=
  g ← life_grid_data;
  me ← in_engine get_self;
  let x := cols me in
  let y := rows me in
  h ← new_object;
  emit (ax_imshow ax0 g [0; x; 0; y] h);;
  d ← get_drawing;
  set_drawing {| fig := fig d; ax := ax d; im := Some h |};;
  emit (ax_set_xticks ax0 (range 0 x) true);;
  emit (ax_set_yticks ax0 (range 0 y) true);;
  emit (ax_grid ax0);;
  emit (ax_set_xlim ax0 0 x);;
  emit (ax_set_ylim ax0 0 y);;
  emit (ax_set_aspect ax0);;
  emit (ax_tick_params ax0);;
  emit (ax_set_xticks ax0 [] false);;
  emit (ax_set_yticks ax0 [] false).

(** [draw_grid(ax, fig)]: both arguments default to [None]. *)
Definition draw_grid (ax0 fig0 : option handle)
    : UI (option handle * option handle) :=
  '(ax1, fig1, new_figure) ←
    match ax0 with
    | None =>
        '(f, a) ← plt_subplots_call;
        _setup_axes a;;
        d ← get_drawing;
        set_drawing {| fig := Some f; ax := ax d; im := im d |};;
        d ← get_drawing;
        set_drawing {| fig := fig d; ax := Some a; im := im d |};;
        mret (a, Some f, true)
    | Some a =>
        self_im_set_data;;
        mret (a, fig0, false)
    end;
  me ← in_engine get_self;
  emit (ax_set_title ax1 (current_step me));;
  (if new_figure : bool then
     emit plt_tight_layout;; emit plt_show
   else
     match fig1 with
     | None => λ u, (Raises AttributeError, u)
     | Some f => emit (canvas_draw f);; emit (plt_pause (1 # 1000))
     end);;
  mret (Some ax1, fig1).

Definition animate (steps : Z) (delay : Q) : UI unit :=
  emit plt_ion;;
  '(f, a) ← plt_subplots_call;
  _setup_axes a;;
  for_each_ui (range 0 steps) (λ frame,
    self_im_set_data;;
    me ← in_engine get_self;
    emit (ax_set_title a (current_step me));;
    emit (canvas_draw f);;
    emit (plt_pause delay);;
    if frame <? steps - 1 then in_engine make_step else mret tt);;
  emit plt_ioff;;
  emit plt_show.

(** ** The vocabulary of the specification *)

(** The array the engine works on. *)
Definition grid (s : state) : ndarray :=
  default [] (arrays (mem s) !! life_grid (self s)).

(** Cell [(i, j)] of an array, for a position of the array (no wrap-around). *)
Definition cell (a : ndarray) (p : Z * Z) : option Z :=
  if (0 <=? p.1) && (0 <=? p.2) then
    row ← a !! Z.to_nat p.1; row !! Z.to_nat p.2
  else None.

Definition alive (a : ndarray) (p : Z * Z) : bool :=
  bool_decide (cell a p = Some 1).

Definition has_shape (r c : Z) (a : ndarray) : Prop :=
  length a = Z.to_nat r ∧ Forall (λ row, length row = Z.to_nat c) a.

Definition binary (a : ndarray) : Prop :=
  Forall (Forall (λ v, v = 0 ∨ v = 1)) a.

(** The invariant of the engine: [life_grid] is a [rows] x [cols] array of
    zeros and ones. *)
Record valid (s : state) : Prop := {
  valid_rows : 0 ≤ rows (self s);
  valid_cols : 0 ≤ cols (self s);
  valid_ref : is_Some (arrays (mem s) !! life_grid (self s));
  valid_shape : has_shape (rows (self s)) (cols (self s)) (grid s);
  valid_binary : binary (grid s)
}.

(** The eight positions around [(i, j)], those of them on the grid, and the
    number of alive cells among these. *)
Definition surrounding (i j : Z) : list (Z * Z) :=
  [(i - 1, j - 1); (i - 1, j); (i - 1, j + 1);
   (i, j - 1); (i, j + 1);
   (i + 1, j - 1); (i + 1, j); (i + 1, j + 1)].

Definition inside (rows cols : Z) (p : Z * Z) : bool :=
  (0 <=? p.1) && (p.1 <? rows) && (0 <=? p.2) && (p.2 <? cols).

Definition counted_positions (rows cols i j : Z) : list (Z * Z) :=
  List.filter (inside rows cols) (surrounding i j).

Definition alive_neighbors (a : ndarray) (rows cols i j : Z) : Z :=
  Z.of_nat (length (List.filter (alive a) (counted_positions rows cols i j))).

(** Conway's rule: the next value of a cell from its value and the number of
    its alive neighbors. *)
Definition conway (is_alive : bool) (n : Z) : Z :=
  if is_alive then (if (n =? 2) || (n =? 3) then 1 else 0)
  else (if n =? 3 then 1 else 0).

(** [make_step], called [k] times in a row. *)
Fixpoint repeat_step (k : nat) : M state unit :=
  match k with
  | O => mret tt
  | S k' => make_step;; repeat_step k'
  end.

(** A caller that holds the reference [get_grid] returned writes [v] into
    position [(r, c)] of that array. *)
Definition caller_writes (l : loc) (r c v : Z) : M state unit :=
  in_mem (array_setitem2 l r c v).

(** The state in which a constructed object lives. *)
Definition constructed (g : GameOfLife) (m : memory) : state :=
  {| self := g; mem := m |}.

(** An empty memory, to build examples in. *)
Definition empty_memory : memory :=
  {| arrays := ∅; random_state := λ _, 0%Q |}.

(** The five cells of the glider. *)
Definition glider : list (Z * Z) := [(1, 0); (2, 1); (0, 2); (1, 2); (2, 2)].

Definition translate (di dj : Z) (pattern : list (Z * Z)) : list (Z * Z) :=
  (λ p, (p.1 + di, p.2 + dj)) <$> pattern.

(** A grid read as the set of its alive cells: the rule on the unbounded
    plane, and a check that [S'] is the generation after [S] when all of [S]
    lies in the square [lo..hi]. *)
Definition member (p : Z * Z) (S : list (Z * Z)) : bool := bool_decide (p ∈ S).

Definition live_around (S : list (Z * Z)) (i j : Z) : Z :=
  Z.of_nat (length (List.filter (λ p, member p S) (surrounding i j))).

Definition within (lo hi : Z) (S : list (Z * Z)) : bool :=
  forallb (λ p : Z * Z,
    (lo <=? p.1) && (p.1 <=? hi) && (lo <=? p.2) && (p.2 <=? hi)) S.

Definition evolves (lo hi : Z) (S S' : list (Z * Z)) : bool :=
  within lo hi S && within (lo - 1) (hi + 1) S' &&
  forallb (λ i, forallb (λ j,
    conway (member (i, j) S) (live_around S i j) =? (if member (i, j) S' then 1 else 0))
    (range (lo - 1) (hi + 2))) (range (lo - 1) (hi + 2)).

(** The state [s'] an operation leaves from [s]: still valid, with the
    dimensions of [s]. *)
Definition keeps_dimensions (s s' : state) : Prop :=
  valid s' ∧ rows (self s') = rows (self s) ∧ cols (self s') = cols (self s).

(** The cells of an [r] x [c] array are alive exactly at the positions
    listed in [S]. *)
Definition shows (r c : Z) (a : ndarray) (S : list (Z * Z)) : Prop :=
  has_shape r c a ∧
  ∀ i j, 0 ≤ i < r → 0 ≤ j < c →
    cell a (i, j) = Some (if member (i, j) S then 1 else 0).

(** What [_setup_axes] asks of pyplot for the grid [g] of an engine with
    [y] rows and [x] columns. *)
Definition setup_calls (ax0 h : handle) (g : ndarray) (x y : Z) : list call :=
  [ax_imshow ax0 g [0; x; 0; y] h;
   ax_set_xticks ax0 (range 0 x) true; ax_set_yticks ax0 (range 0 y) true;
   ax_grid ax0; ax_set_xlim ax0 0 x; ax_set_ylim ax0 0 y; ax_set_aspect ax0;
   ax_tick_params ax0; ax_set_xticks ax0 [] false; ax_set_yticks ax0 [] false].

(** One frame as it is drawn: the grid and the counter of [s] go to the
    image and the title, then the canvas is drawn and the loop pauses. *)
Definition frame_calls (h a f : handle) (delay : Q) (s : state) : list call :=
  [im_set_data h (grid s); ax_set_title a (current_step (self s));
   canvas_draw f; plt_pause delay].

(** The state [k] steps after [s]. *)
Definition generation (k : nat) (s : state) : state := (repeat_step k s).2.

(** An engine that has drawn nothing yet. *)
Definition fresh_ui (s : state) : ui :=
  {| engine := s;
     drawing := {| fig := None; ax := None; im := None |};
     calls := [];
     objects := 0 |}.

(** ** Examples *)

(** A column of three alive cells in a 3 x 3 grid. *)
Definition blinker : state :=
  {| self := {| rows := 3; cols := 3; life_grid := 0%nat; current_step := 0 |};
     mem := {| arrays := {[ 0%nat := [[0; 1; 0]; [0; 1; 0]; [0; 1; 0]] ]};
               random_state := λ _, 0%Q |} |}.

(** An all-dead 3 x 3 grid, as [GameOfLife(3, 3)] makes it in an empty
    memory. *)
Definition empty3x3 : state :=
  {| self := {| rows := 3; cols := 3; life_grid := 0%nat; current_step := 0 |};
     mem := {| arrays := {[ 0%nat := [[0; 0; 0]; [0; 0; 0]; [0; 0; 0]] ]};
               random_state := λ _, 0%Q |} |}.

(** An all-dead 6 x 6 grid. *)
Definition empty6x6 : state :=
  {| self := {| rows := 6; cols := 6; life_grid := 0%nat; current_step := 0 |};
     mem := {| arrays := {[ 0%nat := replicate 6 (replicate 6 0) ]};
               random_state := λ _, 0%Q |} |}.

(** The generations between the glider and its translate. *)
Definition glider1 : list (Z * Z) := [(0, 1); (1, 2); (1, 3); (2, 1); (2, 2)].
Definition glider2 : list (Z * Z) := [(0, 2); (1, 3); (2, 1); (2, 2); (2, 3)].
Definition glider3 : list (Z * Z) := [(1, 1); (1, 3); (2, 2); (2, 3); (3, 2)].

(** The blinker under an object whose [rows] was set to 4 from outside: the
    array has three rows. *)
Definition mismatched : state :=
  {| self := {| rows := 4; cols := 3; life_grid := 0%nat; current_step := 7 |};
     mem := mem blinker |}.

(** The samples the generator hands out lie in [0, 1). *)
Definition uniform (m : memory) : Prop :=
  ∀ k, (0 <= random_state m k < 1)%Q.

(** Two alive cells side by side in a corner of a 3 x 3 grid. *)
Definition pair3x3 : state :=
  {| self := {| rows := 3; cols := 3; life_grid := 0%nat; current_step := 0 |};
     mem := {| arrays := {[ 0%nat := [[1; 1; 0]; [0; 0; 0]; [0; 0; 0]] ]};
               random_state := λ _, 0%Q |} |}.

(** [S'] lists the cells alive on the unbounded plane one generation
    after [S]. *)
Definition plane_next (S S' : list (Z * Z)) : Prop :=
  ∀ i j, conway (member (i, j) S) (live_around S i j) = if member (i, j) S' then 1 else 0.

(** The 2 x 2 block. *)
Definition block : list (Z * Z) := [(0, 0); (0, 1); (1, 0); (1, 1)].

(** A check by computation that an array shows a pattern. *)
Definition shows_check (r c : Z) (a : ndarray) (S : list (Z * Z)) : bool :=
  forallb (λ i, forallb (λ j,
    bool_decide (cell a (i, j) = Some (if member (i, j) S then 1 else 0)))
    (range 0 c)) (range 0 r).

(** The block in the far corner of a 4 x 4 grid. *)
Definition block4x4 : state :=
  {| self := {| rows := 4; cols := 4; life_grid := 0%nat; current_step := 0 |};
     mem := {| arrays := {[ 0%nat := [[0; 0; 0; 0]; [0; 0; 0; 0];
                                      [0; 0; 1; 1]; [0; 0; 1; 1]] ]};
               random_state := λ _, 0%Q |} |}.

(** The glider in the near corner of a 6 x 6 grid. *)
Definition glider6x6 : state :=
  {| self := {| rows := 6; cols := 6; life_grid := 0%nat; current_step := 0 |};
     mem := {| arrays := {[ 0%nat := [[0; 0; 1; 0; 0; 0]; [1; 0; 1; 0; 0; 0];
                                      [0; 1; 1; 0; 0; 0]; [0; 0; 0; 0; 0; 0];
                                      [0; 0; 0; 0; 0; 0]; [0; 0; 0; 0; 0; 0]] ]};
               random_state := λ _, 0%Q |} |}.

(** The blinker with the counter at generation 5. *)
Definition blinker_gen5 : state :=
  {| self := {| rows := 3; cols := 3; life_grid := 0%nat; current_step := 5 |};
     mem := mem blinker |}.

(** The blinker after a first [draw_grid()]. *)
Definition drawn_blinker : ui := (draw_grid None None (fresh_ui blinker)).2.

(** * Properties *)

(** ** Sequences and arrays *)

Lemma index_Ok (n : nat) (i : Z) :
  0 ≤ i < Z.of_nat n → index n i = Ok (Z.to_nat i).
Proof.
  intros Hi. unfold index.
  destruct (Z.ltb_spec i 0); [lia|].
  destruct (Z.leb_spec 0 i); [|lia].
  destruct (Z.ltb_spec i (Z.of_nat n)); [done|lia].
Qed.

Lemma getitem_Ok {A} (l : list A) (i : Z) (x : A) :
  0 ≤ i → l !! Z.to_nat i = Some x → getitem l i = Ok x.
Proof.
  intros Hi Hx. unfold getitem.
  apply lookup_lt_Some in Hx as Hlt.
  rewrite index_Ok by lia. cbn. by rewrite Hx.
Qed.

Lemma setitem_Ok {A} (l : list A) (i : Z) (x : A) :
  0 ≤ i < Z.of_nat (length l) → setitem l i x = Ok (<[Z.to_nat i:=x]> l).
Proof. intros Hi. unfold setitem. by rewrite index_Ok. Qed.

Lemma cell_Some (a : ndarray) (i j v : Z) :
  cell a (i, j) = Some v ↔
  0 ≤ i ∧ 0 ≤ j ∧ ∃ row, a !! Z.to_nat i = Some row ∧ row !! Z.to_nat j = Some v.
Proof.
  unfold cell. cbn [fst snd].
  destruct (Z.leb_spec 0 i), (Z.leb_spec 0 j); cbn [andb];
    try (split; [done | intros (? & ? & _); lia]).
  destruct (a !! Z.to_nat i) as [row|]; cbn.
  - split; [eauto 6 | by intros (_ & _ & ? & [= <-] & ?)].
  - split; [done | by intros (_ & _ & ? & ? & _)].
Qed.

Lemma getitem2_cell (a : ndarray) (i j v : Z) :
  cell a (i, j) = Some v → getitem2 a i j = Ok v.
Proof.
  intros (Hi & Hj & row & Hrow & Hv)%cell_Some. unfold getitem2.
  rewrite (getitem_Ok _ _ row) by done. cbn. by apply getitem_Ok.
Qed.

Lemma has_shape_row (r c : Z) (a : ndarray) (i : Z) :
  has_shape r c a → 0 ≤ i < r →
  ∃ row, a !! Z.to_nat i = Some row ∧ length row = Z.to_nat c.
Proof.
  intros [Hlen Hrows] Hi.
  destruct (lookup_lt_is_Some_2 a (Z.to_nat i)) as [row Hrow]; [lia|].
  exists row. split; [done|].
  by apply (Forall_lookup_1 _ _ _ _ Hrows Hrow).
Qed.

Lemma has_shape_cell (r c : Z) (a : ndarray) (i j : Z) :
  has_shape r c a → 0 ≤ i < r → 0 ≤ j < c → is_Some (cell a (i, j)).
Proof.
  intros Ha Hi Hj. destruct (has_shape_row _ _ _ _ Ha Hi) as (row & Hrow & Hlen).
  destruct (lookup_lt_is_Some_2 row (Z.to_nat j)) as [v Hv]; [lia|].
  exists v. apply cell_Some. split; [lia|]. split; [lia|]. eauto.
Qed.

Lemma cell_inside (r c : Z) (a : ndarray) (p : Z * Z) :
  has_shape r c a → is_Some (cell a p) → inside r c p = true.
Proof.
  destruct p as [i j]. intros [Hlen Hrows] [v (Hi & Hj & row & Hrow & Hv)%cell_Some].
  assert (length row = Z.to_nat c) by apply (Forall_lookup_1 _ _ _ _ Hrows Hrow).
  apply lookup_lt_Some in Hrow, Hv. unfold inside. cbn [fst snd].
  repeat (apply andb_true_intro; split);
    [apply Z.leb_le | apply Z.ltb_lt | apply Z.leb_le | apply Z.ltb_lt]; lia.
Qed.

Lemma inside_spec (r c : Z) (i j : Z) :
  inside r c (i, j) = true ↔ 0 ≤ i < r ∧ 0 ≤ j < c.
Proof.
  unfold inside. cbn [fst snd].
  rewrite !andb_true_iff, !Z.leb_le, !Z.ltb_lt. lia.
Qed.

Lemma setitem2_Ok (r c : Z) (a : ndarray) (i j v : Z) :
  has_shape r c a → 0 ≤ i < r → 0 ≤ j < c →
  ∃ a', setitem2 a i j v = Ok a' ∧ has_shape r c a' ∧
        cell a' (i, j) = Some v ∧ ∀ p, p ≠ (i, j) → cell a' p = cell a p.
Proof.
  intros Ha Hi Hj. destruct (has_shape_row _ _ _ _ Ha Hi) as (row & Hrow & Hlen).
  destruct Ha as [Hlena Hrows].
  exists (<[Z.to_nat i:=<[Z.to_nat j:=v]> row]> a). split; [|split; [|split]].
  - unfold setitem2. rewrite (getitem_Ok _ _ row) by (done || lia). cbn.
    rewrite setitem_Ok by lia. cbn. apply setitem_Ok. lia.
  - split; [by rewrite length_insert|].
    apply Forall_insert; [done|]. by rewrite length_insert.
  - apply cell_Some. split; [lia|]. split; [lia|].
    exists (<[Z.to_nat j:=v]> row). split.
    + apply list_lookup_insert_eq. lia.
    + apply list_lookup_insert_eq. lia.
  - intros [i' j'] Hne. unfold cell. cbn [fst snd].
    destruct (Z.leb_spec 0 i'), (Z.leb_spec 0 j'); cbn [andb]; try done.
    destruct (decide (Z.to_nat i = Z.to_nat i')) as [Heq|Hnei].
    + rewrite <- Heq, Hrow, list_lookup_insert_eq by lia. cbn.
      apply list_lookup_insert_ne. intros Heqj.
      apply Hne. f_equal; lia.
    + by rewrite list_lookup_insert_ne.
Qed.

Lemma binary_cell (a : ndarray) (p : Z * Z) (v : Z) :
  binary a → cell a p = Some v → v = 0 ∨ v = 1.
Proof.
  destruct p as [i j]. intros Hb (_ & _ & row & Hrow & Hv)%cell_Some.
  pose proof (Forall_lookup_1 _ _ _ _ Hb Hrow) as Hr.
  apply (Forall_lookup_1 _ _ _ _ Hr Hv).
Qed.

Lemma binary_intro (r c : Z) (a : ndarray) :
  has_shape r c a →
  (∀ i j v, 0 ≤ i < r → 0 ≤ j < c → cell a (i, j) = Some v → v = 0 ∨ v = 1) →
  binary a.
Proof.
  intros [Hlen Hrows] Hcells.
  apply Forall_lookup_2. intros i row Hrow.
  apply Forall_lookup_2. intros j v Hv.
  assert (length row = Z.to_nat c) by apply (Forall_lookup_1 _ _ _ _ Hrows Hrow).
  apply lookup_lt_Some in Hrow as Hi. apply lookup_lt_Some in Hv as Hj.
  apply (Hcells (Z.of_nat i) (Z.of_nat j)); [lia..|].
  apply cell_Some. split; [lia|]. split; [lia|].
  exists row. by rewrite !Nat2Z.id.
Qed.

Lemma ndarray_ext (r c : Z) (a b : ndarray) :
  has_shape r c a → has_shape r c b →
  (∀ i j, 0 ≤ i < r → 0 ≤ j < c → cell a (i, j) = cell b (i, j)) →
  a = b.
Proof.
  intros Ha Hb Hcells. apply list_eq_same_length with (Z.to_nat r);
    [apply Hb | apply Ha |].
  intros i rowa rowb Hi Hrowa Hrowb.
  destruct Ha as [_ Ha], Hb as [_ Hb].
  assert (length rowa = Z.to_nat c) by apply (Forall_lookup_1 _ _ _ _ Ha Hrowa).
  assert (length rowb = Z.to_nat c) by apply (Forall_lookup_1 _ _ _ _ Hb Hrowb).
  apply list_eq_same_length with (Z.to_nat c); [done..|].
  intros j va vb Hj Hva Hvb.
  assert (cell a (Z.of_nat i, Z.of_nat j) = Some va) as Hca.
  { apply cell_Some. split; [lia|]. split; [lia|]. exists rowa. by rewrite !Nat2Z.id. }
  assert (cell b (Z.of_nat i, Z.of_nat j) = Some vb) as Hcb.
  { apply cell_Some. split; [lia|]. split; [lia|]. exists rowb. by rewrite !Nat2Z.id. }
  rewrite Hcells in Hca by lia. congruence.
Qed.

Lemma np_zeros_spec (r c : Z) :
  0 ≤ r → 0 ≤ c →
  ∃ a, np_zeros (r, c) = Ok a ∧ has_shape r c a ∧
       ∀ i j, 0 ≤ i < r → 0 ≤ j < c → cell a (i, j) = Some 0.
Proof.
  intros Hr Hc. unfold np_zeros.
  destruct (Z.ltb_spec r 0); [lia|]. destruct (Z.ltb_spec c 0); [lia|]. cbn.
  eexists. split; [done|]. split.
  - split; [by rewrite length_replicate|].
    apply Forall_replicate. by rewrite length_replicate.
  - intros i j Hi Hj. apply cell_Some. split; [lia|]. split; [lia|].
    eexists. split; apply lookup_replicate_2; lia.
Qed.

Lemma np_zeros_negative (r c : Z) :
  r < 0 ∨ c < 0 → np_zeros (r, c) = Raise ValueError.
Proof.
  intros Hrc. unfold np_zeros.
  destruct (Z.ltb_spec r 0); [done|]. destruct (Z.ltb_spec c 0); [done|lia].
Qed.

Lemma int64_small (z : Z) : - 2 ^ 63 ≤ z < 2 ^ 63 → int64 z = z.
Proof. intros Hz. unfold int64. rewrite Z.mod_small; lia. Qed.

(** ** Loops *)

Lemma for_loop_app {A S} (l1 l2 : list A) (s : S) (body : S → A → result S) :
  for_loop (l1 ++ l2) s body = s' ← for_loop l1 s body; for_loop l2 s' body.
Proof.
  revert s. induction l1 as [|x l1 IH]; intros s; [done|].
  cbn. destruct (body s x) as [s1|e]; cbn; [apply IH | done].
Qed.

Lemma for_loop_fmap {A B S} (f : A → B) (l : list A) (s : S) (body : S → B → result S) :
  for_loop (f <$> l) s body = for_loop l s (λ s x, body s (f x)).
Proof.
  revert s. induction l as [|x l IH]; intros s; [done|].
  cbn. destruct (body s (f x)) as [s1|e]; cbn; [apply IH | done].
Qed.

(** Two nested loops are one loop over the pairs, in the same order. *)
Lemma for_loop_nested {A B S} (l1 : list A) (l2 : list B) (s : S)
    (body : S → A → B → result S) :
  for_loop l1 s (λ s x, for_loop l2 s (λ s y, body s x y)) =
  for_loop (x ← l1; pair x <$> l2) s (λ s p, body s p.1 p.2).
Proof.
  revert s. induction l1 as [|x l1 IH]; intros s; [done|].
  cbn. rewrite for_loop_app, for_loop_fmap. cbn.
  destruct (for_loop l2 s _) as [s1|e]; cbn; [apply IH | done].
Qed.

(** A loop whose body keeps an invariant of the items done so far and of the
    local variables runs to its end, and the invariant holds of the whole
    list then. *)
Lemma for_loop_inv {A S} (I : list A → S → Prop) (l : list A) (s : S)
    (body : S → A → result S) :
  I [] s →
  (∀ done x rest s, l = done ++ x :: rest → I done s →
     ∃ s', body s x = Ok s' ∧ I (done ++ [x]) s') →
  ∃ s', for_loop l s body = Ok s' ∧ I l s'.
Proof.
  intros Hinit Hstep.
  cut (∀ rest done s, l = done ++ rest → I done s →
         ∃ s', for_loop rest s body = Ok s' ∧ I l s').
  { intros Hgen. by apply (Hgen l []). }
  induction rest as [|x rest IH]; intros done s0 Hl Hdone.
  - exists s0. split; [done|]. by rewrite Hl, app_nil_r.
  - destruct (Hstep done x rest s0 Hl Hdone) as (s1 & Hbody & Hs1).
    destruct (IH (done ++ [x]) s1) as (s' & Hloop & Hs'); [by rewrite <- app_assoc|done|].
    exists s'. split; [|done]. cbn. by rewrite Hbody.
Qed.

(** The loops over the grid: every position is visited, each step
    establishes [Q] at its position and keeps what was established. *)
Lemma grid_loop_spec {S} (K : S → Prop) (Q : Z * Z → S → Prop) (r c : Z) (s : S)
    (body : S → Z → Z → result S) :
  K s →
  (∀ s i j, K s → 0 ≤ i < r → 0 ≤ j < c →
     ∃ s', body s i j = Ok s' ∧ K s' ∧ Q (i, j) s' ∧ ∀ p, Q p s → Q p s') →
  ∃ s', for_loop (range 0 r) s (λ s i, for_loop (range 0 c) s (λ s j, body s i j)) = Ok s'
        ∧ K s' ∧ ∀ i j, 0 ≤ i < r → 0 ≤ j < c → Q (i, j) s'.
Proof.
  intros HK Hstep. rewrite for_loop_nested.
  pose (I := λ (done : list (Z * Z)) (s : S), K s ∧ ∀ p, p ∈ done → Q p s).
  destruct (for_loop_inv I (x ← range 0 r; pair x <$> range 0 c) s
              (λ s p, body s p.1 p.2)) as (s' & Hloop & HK' & HQ).
  - split; [done|]. by intros p ?%elem_of_nil.
  - intros done [i j] rest s0 Hl [HK0 HQ0]. cbn [fst snd].
    assert ((i, j) ∈ (x ← range 0 r; pair x <$> range 0 c)) as Hin.
    { rewrite Hl. apply elem_of_app. right. apply elem_of_cons. by left. }
    apply list_elem_of_bind in Hin as (i' & Hin & Hi).
    apply list_elem_of_fmap in Hin as (j' & [= <- <-] & Hj).
    unfold range in Hi, Hj. apply elem_of_seqZ in Hi, Hj.
    destruct (Hstep s0 i j HK0) as (s1 & Hbody & HK1 & HQ1 & Hkeep); [lia..|].
    exists s1. split; [done|]. split; [done|].
    intros p [Hp|Hp%list_elem_of_singleton]%elem_of_app; [by apply Hkeep, HQ0 | by subst].
  - exists s'. split; [done|]. split; [done|].
    intros i j Hi Hj. apply HQ. apply list_elem_of_bind. exists i.
    unfold range. split; [|apply elem_of_seqZ; lia].
    apply list_elem_of_fmap. exists j. split; [done|]. apply elem_of_seqZ. lia.
Qed.

(** ** Counting neighbors *)

Lemma filter_filter_andb {A} (f g : A → bool) (l : list A) :
  List.filter f (List.filter g l) = List.filter (λ x, g x && f x) l.
Proof.
  induction l as [|x l IH]; [done|]. cbn.
  destruct (g x); cbn; [destruct (f x)|]; by rewrite IH.
Qed.

Lemma length_filter_cons {A} (f : A → bool) (x : A) (l : list A) :
  length (List.filter f (x :: l)) =
  ((if f x then 1 else 0) + length (List.filter f l))%nat.
Proof. cbn. by destruct (f x). Qed.

(** The nine offsets of the inner loops, less the one the loop skips, lead to
    the eight surrounding positions. *)
Lemma length_filter_offsets (h : Z * Z → bool) (rc cc : Z) :
  length (List.filter
            (λ o : Z * Z, negb ((o.1 =? 0) && (o.2 =? 0)) && h (rc + o.1, cc + o.2))
            (x ← [-1; 0; 1]; pair x <$> [-1; 0; 1])) =
  length (List.filter h (surrounding rc cc)).
Proof.
  unfold surrounding.
  cbn [mbind list_bind fmap list_fmap app].
  rewrite !length_filter_cons. cbn [List.filter length fst snd Z.eqb negb andb].
  by rewrite !Z.add_0_r.
Qed.

Lemma alive_cell (a : ndarray) (p : Z * Z) (v : Z) :
  cell a p = Some v → alive a p = (v =? 1).
Proof.
  intros Hv. unfold alive. rewrite Hv.
  destruct (Z.eqb_spec v 1) as [->|Hne];
    [by apply bool_decide_eq_true_2 | apply bool_decide_eq_false_2; congruence].
Qed.

(** The loops of [make_step] on an [r] x [c] array [g] of zeros and ones. *)
Section loops_of_make_step.
Context (r c : Z) (g : ndarray).
Hypothesis Hshape : has_shape r c g.
Hypothesis Hbin : binary g.

(** The sum the two inner loops compute is the number of alive cells among
    the surrounding positions that are on the grid. *)
Lemma sum_neighbors_spec (rc cc : Z) :
  sum_neighbors g r c rc cc = Ok (alive_neighbors g r c rc cc).
Proof.
  unfold sum_neighbors. rewrite for_loop_nested.
  pose (f := λ o : Z * Z,
    negb ((o.1 =? 0) && (o.2 =? 0)) &&
    (inside r c (rc + o.1, cc + o.2) && alive g (rc + o.1, cc + o.2))).
  match goal with |- for_loop ?l _ ?body = _ =>
    destruct (for_loop_inv (λ done s, s = Z.of_nat (length (List.filter f done)))
                l 0 body) as (s' & -> & ->)
  end.
  - done.
  - intros done [dr dc] rest s Hl ->. cbn [fst snd].
    assert (length done ≤ 8)%nat as Hdone.
    { apply (f_equal length) in Hl. rewrite length_app in Hl. cbn in Hl. lia. }
    pose proof (List.filter_length_le f done) as Hle.
    rewrite List.filter_app, length_app. cbn [List.filter].
    assert (f (dr, dc) = negb ((dr =? 0) && (dc =? 0)) &&
              (inside r c (rc + dr, cc + dc) && alive g (rc + dr, cc + dc))) as -> by done.
    destruct ((dr =? 0) && (dc =? 0)); cbn [negb andb].
    { eexists. split; [done|]. cbn. lia. }
    change ((0 <=? rc + dr) && (rc + dr <? r) && (0 <=? cc + dc) && (cc + dc <? c))
      with (inside r c (rc + dr, cc + dc)).
    destruct (inside r c (rc + dr, cc + dc)) eqn:Hin; cbn [andb].
    2:{ eexists. split; [done|]. cbn. lia. }
    apply inside_spec in Hin as [Hi Hj].
    destruct (has_shape_cell _ _ _ _ _ Hshape Hi Hj) as [v Hv].
    rewrite (getitem2_cell _ _ _ _ Hv), (alive_cell _ _ _ Hv). cbn.
    eexists. split; [done|].
    destruct (binary_cell _ _ _ Hbin Hv) as [-> | ->]; cbn;
      rewrite int64_small; lia.
  - f_equal. unfold alive_neighbors, counted_positions.
    rewrite filter_filter_andb. f_equal.
    apply (length_filter_offsets (λ p, inside r c p && alive g p)).
Qed.

(** The first pair of loops files the count of every cell of the grid under
    its position. *)
Lemma count_neighbors_spec :
  ∃ neighbors, count_neighbors g r c = Ok neighbors ∧
    ∀ i j, 0 ≤ i < r → 0 ≤ j < c →
      neighbors !! (i, j) = Some (alive_neighbors g r c i j).
Proof.
  unfold count_neighbors.
  destruct (grid_loop_spec (λ _, True)
              (λ p (d : gmap (Z * Z) Z), d !! p = Some (alive_neighbors g r c p.1 p.2))
              r c ∅
              (λ d rc cc, n ← sum_neighbors g r c rc cc; Ok (<[(rc, cc):=n]> d)))
    as (d & Hloop & _ & Hd); [done| |by exists d].
  intros d i j _ Hi Hj. rewrite sum_neighbors_spec. cbn.
  eexists. split; [done|]. split; [done|]. split.
  - apply lookup_insert_eq.
  - intros p Hp. destruct (decide ((i, j) = p)) as [<-|Hne].
    + apply lookup_insert_eq.
    + by rewrite lookup_insert_ne.
Qed.

(** The second pair of loops leaves in every cell what Conway's rule makes
    of the cell and its neighbors in [g]. *)
Lemma apply_rules_spec (neighbors : gmap (Z * Z) Z) :
  0 ≤ r → 0 ≤ c →
  (∀ i j, 0 ≤ i < r → 0 ≤ j < c →
     neighbors !! (i, j) = Some (alive_neighbors g r c i j)) →
  ∃ a, apply_rules g neighbors r c = Ok a ∧ has_shape r c a ∧
    ∀ i j, 0 ≤ i < r → 0 ≤ j < c →
      cell a (i, j) = Some (conway (alive g (i, j)) (alive_neighbors g r c i j)).
Proof.
  intros Hr Hc Hnb. unfold apply_rules.
  destruct (np_zeros_spec r c Hr Hc) as (zeros & -> & Hzeros & _). cbn.
  match goal with
  | |- ∃ a, for_loop _ _ (λ s i, for_loop _ _ (λ s' j, @?body s' i j)) = _ ∧ _ =>
    destruct (grid_loop_spec (has_shape r c)
      (λ p a, cell a p = Some (conway (alive g p) (alive_neighbors g r c p.1 p.2)))
      r c zeros body) as (a & Hloop & Ha & Hcells); [done| |by exists a]
  end.
  intros a i j Ha Hi Hj. cbn beta.
  destruct (has_shape_cell _ _ _ _ _ Hshape Hi Hj) as [v Hv].
  rewrite (getitem2_cell _ _ _ _ Hv), (alive_cell _ _ _ Hv). cbn.
  unfold dict_get. rewrite (Hnb i j Hi Hj).
  set (n := alive_neighbors g r c i j).
  assert (∀ w, w = conway (v =? 1) n →
            ∃ a', setitem2 a i j w = Ok a' ∧ has_shape r c a' ∧
              cell a' (i, j) = Some w ∧
              ∀ p, cell a p = Some (conway (alive g p) (alive_neighbors g r c p.1 p.2)) →
                   cell a' p = Some (conway (alive g p) (alive_neighbors g r c p.1 p.2)))
    as Hset.
  { intros w ->.
    destruct (setitem2_Ok r c a i j (conway (v =? 1) n) Ha Hi Hj)
      as (a' & -> & Ha' & Hw & Hothers).
    exists a'. split; [done|]. split; [done|]. split; [done|].
    intros p Hp. destruct (decide (p = (i, j))) as [->|Hne].
    - by rewrite (alive_cell _ _ _ Hv).
    - by rewrite Hothers. }
  destruct (binary_cell _ _ _ Hbin Hv) as [-> | ->]; cbn.
  - destruct (n =? 3) eqn:Hn; apply Hset; unfold conway; cbn; by rewrite Hn.
  - destruct ((n =? 2) || (n =? 3)) eqn:Hn; cbn; apply Hset; unfold conway; cbn;
      by rewrite Hn.
Qed.

End loops_of_make_step.

(** ** One generation *)

(** What [make_step] does to a valid state: the new array is a new object,
    [life_grid] is rebound to it and the counter goes up by one. *)
Lemma make_step_spec (s : state) :
  valid s →
  ∃ a,
    make_step s =
      (Ok tt,
       {| self := {| rows := rows (self s); cols := cols (self s);
                     life_grid := fresh (dom (arrays (mem s)));
                     current_step := current_step (self s) + 1 |};
          mem := {| arrays := <[fresh (dom (arrays (mem s))):=a]> (arrays (mem s));
                    random_state := random_state (mem s) |} |}) ∧
    has_shape (rows (self s)) (cols (self s)) a ∧
    ∀ i j, 0 ≤ i < rows (self s) → 0 ≤ j < cols (self s) →
      cell a (i, j) =
        Some (conway (alive (grid s) (i, j))
                (alive_neighbors (grid s) (rows (self s)) (cols (self s)) i j)).
Proof.
  intros [Hr Hc Href Hshape Hbin].
  destruct (count_neighbors_spec _ _ _ Hshape Hbin) as (nb & Hcount & Hnb).
  destruct (apply_rules_spec _ _ _ Hshape Hbin nb Hr Hc Hnb)
    as (a & Hrules & Ha & Hcells).
  exists a. split; [|done].
  unfold make_step, mbind, M_bind, get_self, set_current_step, in_mem, read_array, lift.
  cbn -[count_neighbors apply_rules fresh].
  change (default [] (arrays (mem s) !! life_grid (self s))) with (grid s).
  rewrite Hcount. cbn -[count_neighbors apply_rules fresh].
  by rewrite Hrules.
Qed.

Lemma conway_binary (b : bool) (n : Z) : conway b n = 0 ∨ conway b n = 1.
Proof. unfold conway. repeat case_match; auto. Qed.

Lemma grid_insert (s : state) (l : loc) (a : ndarray) (g : GameOfLife) (rnd : nat → Q) :
  life_grid g = l →
  grid {| self := g; mem := {| arrays := <[l:=a]> (arrays (mem s)); random_state := rnd |} |} = a.
Proof. intros <-. unfold grid. cbn. by rewrite lookup_insert_eq. Qed.

Lemma fresh_array (m : memory) (l : loc) :
  is_Some (arrays m !! l) → fresh (dom (arrays m)) ≠ l.
Proof.
  intros Hl%elem_of_dom Heq. apply (is_fresh (dom (arrays m))). by rewrite Heq.
Qed.

(** [make_step] on a valid state, in terms of the state it leaves. *)
Lemma make_step_next (s : state) :
  valid s →
  ∃ s', make_step s = (Ok tt, s') ∧ valid s' ∧
    rows (self s') = rows (self s) ∧ cols (self s') = cols (self s) ∧
    current_step (self s') = current_step (self s) + 1 ∧
    random_state (mem s') = random_state (mem s) ∧
    arrays (mem s) !! life_grid (self s') = None ∧
    (∀ l, is_Some (arrays (mem s) !! l) → arrays (mem s') !! l = arrays (mem s) !! l) ∧
    ∀ i j, 0 ≤ i < rows (self s) → 0 ≤ j < cols (self s) →
      cell (grid s') (i, j) =
        Some (conway (alive (grid s) (i, j))
                (alive_neighbors (grid s) (rows (self s)) (cols (self s)) i j)).
Proof.
  intros Hvalid. destruct (make_step_spec s Hvalid) as (a & -> & Ha & Hcells).
  eexists. split; [done|].
  rewrite (grid_insert s (fresh (dom (arrays (mem s)))) a) by done. cbn.
  split; [|repeat split; try done].
  2:{ apply not_elem_of_dom, is_fresh. }
  - destruct Hvalid as [Hr Hc Href Hshape Hbin].
    split; cbn; try done.
    + rewrite lookup_insert_eq. by eexists.
    + by rewrite (grid_insert s (fresh (dom (arrays (mem s)))) a).
    + rewrite (grid_insert s (fresh (dom (arrays (mem s)))) a) by done.
      apply (binary_intro _ _ _ Ha). intros i j v Hi Hj.
      rewrite Hcells by done. intros [= <-]. apply conway_binary.
  - intros l Hl. apply lookup_insert_ne. by apply fresh_array.
Qed.

Lemma corner_positions (r c i j : Z) :
  i = 0 ∨ i = r - 1 → j = 0 ∨ j = c - 1 →
  (length (counted_positions r c i j) ≤ 3)%nat.
Proof.
  intros Hi Hj. unfold counted_positions, surrounding.
  rewrite !length_filter_cons. cbn [List.filter length].
  repeat match goal with
  | |- context [if inside r c ?p then _ else _] =>
      let H := fresh "H" in
      destruct (inside r c p) eqn:H; [apply inside_spec in H|clear H]
  end; lia.
Qed.

(** Validity of a state written out in full is settled by computation. *)
Ltac valid_by_computation :=
  split;
  [ cbn; lia | cbn; lia | by eexists
  | split; [done | by repeat constructor]
  | unfold binary; compute_done ].

Lemma blinker_valid : valid blinker.
Proof. valid_by_computation. Defined.

(** C1: [make_step] computes every cell of the next grid from the grid
    before the step alone.  The neighbors counted for a cell are the alive
    cells among those of its eight surrounding positions that lie in
    [0, rows) x [0, cols), without wrap-around (around a corner at most three
    positions are counted); the new value is alive exactly for an alive cell
    with two or three alive neighbors and for a dead cell with three.  The
    result is a new array that replaces the grid as a whole, and the array of
    the grid before the step is left as it was. *)
Theorem make_step_conway (s : state) :
  valid s →
  ∃ s', make_step s = (Ok tt, s') ∧
    has_shape (rows (self s)) (cols (self s)) (grid s') ∧
    (∀ i j, 0 ≤ i < rows (self s) → 0 ≤ j < cols (self s) →
       cell (grid s') (i, j) =
         Some (conway (alive (grid s) (i, j))
                 (alive_neighbors (grid s) (rows (self s)) (cols (self s)) i j))) ∧
    (∀ i j, i = 0 ∨ i = rows (self s) - 1 → j = 0 ∨ j = cols (self s) - 1 →
       (length (counted_positions (rows (self s)) (cols (self s)) i j) ≤ 3)%nat) ∧
    life_grid (self s') ≠ life_grid (self s) ∧
    arrays (mem s') !! life_grid (self s) = arrays (mem s) !! life_grid (self s).
Proof.
  intros Hvalid.
  destruct (make_step_next s Hvalid)
    as (s' & Hstep & Hvalid' & Hrows & Hcols & _ & _ & Hnew & Hold & Hcells).
  exists s'. split; [done|]. split; [|split; [done|split; [|split]]].
  - rewrite <- Hrows, <- Hcols. apply Hvalid'.
  - intros i j. apply corner_positions.
  - intros Heq. destruct (valid_ref s Hvalid) as [a Ha]. congruence.
  - apply Hold, Hvalid.
Qed.

Lemma make_step_conway_witness :
  ∃ s', make_step blinker = (Ok tt, s') ∧
    has_shape 3 3 (grid s') ∧
    (∀ i j, 0 ≤ i < 3 → 0 ≤ j < 3 →
       cell (grid s') (i, j) =
         Some (conway (alive (grid blinker) (i, j))
                 (alive_neighbors (grid blinker) 3 3 i j))) ∧
    (∀ i j, i = 0 ∨ i = 3 - 1 → j = 0 ∨ j = 3 - 1 →
       (length (counted_positions 3 3 i j) ≤ 3)%nat) ∧
    life_grid (self s') ≠ 0%nat ∧
    arrays (mem s') !! 0%nat = arrays (mem blinker) !! 0%nat.
Proof. apply (make_step_conway blinker). apply blinker_valid. Defined.

(** ** Seeding *)

Lemma M_bind_Ok {S A B} (m : M S A) (f : A → M S B) (s s' : S) (a : A) :
  m s = (Ok a, s') → (m ≫= f) s = f a s'.
Proof. intros Hm. unfold mbind, M_bind. by rewrite Hm. Qed.

Lemma M_bind_Raise {S A B} (m : M S A) (f : A → M S B) (s s' : S) (e : exn) :
  m s = (Raise e, s') → (m ≫= f) s = (Raise e, s').
Proof. intros Hm. unfold mbind, M_bind. by rewrite Hm. Qed.

Lemma array_setitem2_Ok (l : loc) (r c v : Z) (m : memory) (a a' : ndarray) :
  arrays m !! l = Some a → - 2 ^ 63 ≤ v < 2 ^ 63 → setitem2 a r c v = Ok a' →
  array_setitem2 l r c v m =
    (Ok tt, {| arrays := <[l:=a']> (arrays m); random_state := random_state m |}).
Proof.
  intros Ha Hv Hset. unfold array_setitem2.
  rewrite (M_bind_Ok _ _ m m a) by (unfold read_array; by rewrite Ha).
  rewrite (M_bind_Ok _ _ m m a') by (unfold lift; by rewrite Hset).
  destruct (Z.leb_spec (- 2 ^ 63) v); [|lia].
  destruct (Z.ltb_spec v (2 ^ 63)); [|lia]. cbn [andb].
  rewrite (M_bind_Ok _ _ m m tt) by done.
  done.
Qed.

Lemma member_cons (p q : Z * Z) (S : list (Z * Z)) :
  member p (q :: S) = bool_decide (p = q) || member p S.
Proof.
  unfold member. destruct (decide (p = q)) as [->|Hne].
  - rewrite (bool_decide_eq_true_2 (q = q)) by done.
    apply bool_decide_eq_true_2, elem_of_cons. by left.
  - rewrite (bool_decide_eq_false_2 (p = q)) by done. cbn.
    apply bool_decide_ext. rewrite elem_of_cons. tauto.
Qed.

(** The loop of [populate_grid]: every write goes to the array [life_grid]
    refers to, and at the end that array holds a one wherever a pair of
    [coords] pointed and what it held before everywhere else. *)
Lemma populate_loop (coords : list (Z * Z)) (g : GameOfLife)
    (arr : gmap loc ndarray) (rnd : nat → Q) :
  is_Some (arr !! life_grid g) →
  has_shape (rows g) (cols g) (default [] (arr !! life_grid g)) →
  ∃ a,
    for_each coords (λ '(r, c),
      me ← get_self;
      if (0 <=? r) && (r <? rows me) && (0 <=? c) && (c <? cols me) then
        in_mem (array_setitem2 (life_grid me) r c 1)
      else mret tt)
      {| self := g; mem := {| arrays := arr; random_state := rnd |} |} =
    (Ok tt, {| self := g;
               mem := {| arrays := <[life_grid g:=a]> arr; random_state := rnd |} |}) ∧
    has_shape (rows g) (cols g) a ∧
    ∀ i j, 0 ≤ i < rows g → 0 ≤ j < cols g →
      cell a (i, j) =
        if member (i, j) coords then Some 1 else cell (default [] (arr !! life_grid g)) (i, j).
Proof.
  intros Href Hshape.
  match goal with |- ∃ a, for_each _ ?b _ = _ ∧ _ => set (body := b) end.
  revert arr Href Hshape. induction coords as [|[r c] coords IH]; intros arr [a0 Ha0] Hshape;
    rewrite Ha0 in Hshape |- *; change (default [] (Some a0)) with a0 in *.
  - exists a0. split; [by rewrite insert_id|]. split; [done|]. done.
  - cbn [for_each].
    destruct (inside (rows g) (cols g) (r, c)) eqn:Hin.
    + pose proof Hin as [Hr Hc]%inside_spec.
      destruct (setitem2_Ok _ _ _ r c 1 Hshape Hr Hc) as (a1 & Hset & Ha1 & Hcell & Hothers).
      erewrite M_bind_Ok; cycle 1.
      { unfold body. erewrite M_bind_Ok by done. cbn [self].
        change ((0 <=? r) && (r <? rows g) && (0 <=? c) && (c <? cols g))
          with (inside (rows g) (cols g) (r, c)). rewrite Hin.
        unfold in_mem. cbn [mem].
        by rewrite (array_setitem2_Ok _ _ _ _ _ a0 a1) by (done || lia). }
      cbn [self arrays random_state].
      destruct (IH (<[life_grid g:=a1]> arr)) as (a & Hloop & Ha & Hcells).
      { rewrite lookup_insert_eq. by eexists. }
      { by rewrite lookup_insert_eq. }
      exists a. split; [|split; [done|]].
      * rewrite Hloop. by rewrite insert_insert_eq.
      * intros i j Hi Hj. rewrite (Hcells i j Hi Hj), member_cons, lookup_insert_eq.
        change (default [] (Some a1)) with a1.
        destruct (decide ((i, j) = (r, c))) as [Heq|Hne].
        -- rewrite bool_decide_eq_true_2 by done. cbn. rewrite Heq, Hcell.
           by destruct (member (r, c) coords).
        -- rewrite (bool_decide_eq_false_2 _ Hne), Hothers by done. done.
    + erewrite M_bind_Ok; cycle 1.
      { unfold body. erewrite M_bind_Ok by done. cbn [self].
        change ((0 <=? r) && (r <? rows g) && (0 <=? c) && (c <? cols g))
          with (inside (rows g) (cols g) (r, c)). by rewrite Hin. }
      destruct (IH arr) as (a & Hloop & Ha & Hcells); [by eexists|by rewrite Ha0|].
      rewrite Ha0 in Hcells. change (default [] (Some a0)) with a0 in *.
      exists a. split; [done|split; [done|]].
      intros i j Hi Hj. rewrite (Hcells i j Hi Hj), member_cons.
      rewrite bool_decide_eq_false_2; [done|].
      intros [= -> ->]. apply not_true_iff_false in Hin. apply Hin.
      by apply inside_spec.
Qed.

Lemma populate_grid_spec (s : state) (coords : list (Z * Z)) :
  is_Some (arrays (mem s) !! life_grid (self s)) →
  has_shape (rows (self s)) (cols (self s)) (grid s) →
  ∃ a,
    populate_grid coords s =
      (Ok tt,
       {| self := {| rows := rows (self s); cols := cols (self s);
                     life_grid := life_grid (self s); current_step := 0 |};
          mem := {| arrays := <[life_grid (self s):=a]> (arrays (mem s));
                    random_state := random_state (mem s) |} |}) ∧
    has_shape (rows (self s)) (cols (self s)) a ∧
    ∀ i j, 0 ≤ i < rows (self s) → 0 ≤ j < cols (self s) →
      cell a (i, j) = if member (i, j) coords then Some 1 else cell (grid s) (i, j).
Proof.
  destruct s as [g [arr rnd]]. unfold grid. cbn [self mem arrays random_state].
  intros Href Hshape.
  destruct (populate_loop coords g arr rnd Href Hshape) as (a & Hloop & Ha & Hcells).
  exists a. split; [|done].
  unfold populate_grid. by rewrite (M_bind_Ok _ _ _ _ _ Hloop).
Qed.

Lemma valid_seeded (s : state) (a : ndarray) (n : Z) :
  valid s → has_shape (rows (self s)) (cols (self s)) a → binary a →
  valid {| self := {| rows := rows (self s); cols := cols (self s);
                      life_grid := life_grid (self s); current_step := n |};
           mem := {| arrays := <[life_grid (self s):=a]> (arrays (mem s));
                     random_state := random_state (mem s) |} |}.
Proof.
  intros [Hr Hc Href Hshape Hbin] Ha Hbina.
  split; cbn [self mem rows cols life_grid arrays]; [done..| | |].
  - rewrite lookup_insert_eq. by eexists.
  - by rewrite (grid_insert s (life_grid (self s)) a).
  - by rewrite (grid_insert s (life_grid (self s)) a).
Qed.

Lemma empty3x3_valid : valid empty3x3.
Proof. valid_by_computation. Defined.

(** C4: [populate_grid] raises nothing, whatever the pairs.  After it a cell
    of the grid holds a one when its position is among the pairs and what it
    held before otherwise: the pairs with [0 <= row < rows] and
    [0 <= col < cols] are set alive, the others are ignored, and no alive
    cell is cleared.  When every pair is out of range the cells are the same
    as before the call. *)
Theorem populate_grid_additive (s : state) (coords : list (Z * Z)) :
  valid s →
  ∃ s', populate_grid coords s = (Ok tt, s') ∧
    has_shape (rows (self s)) (cols (self s)) (grid s') ∧
    (∀ i j, 0 ≤ i < rows (self s) → 0 ≤ j < cols (self s) →
       cell (grid s') (i, j) =
         if member (i, j) coords then Some 1 else cell (grid s) (i, j)) ∧
    (∀ p, alive (grid s) p = true → alive (grid s') p = true) ∧
    ((∀ p, p ∈ coords → inside (rows (self s)) (cols (self s)) p = false) →
     grid s' = grid s).
Proof.
  intros Hvalid.
  destruct (populate_grid_spec s coords (valid_ref s Hvalid) (valid_shape s Hvalid))
    as (a & -> & Ha & Hcells).
  eexists. split; [done|]. rewrite (grid_insert s (life_grid (self s)) a) by done.
  split; [done|]. split; [done|]. split.
  - intros [i j] Hp. apply bool_decide_eq_true in Hp.
    assert (inside (rows (self s)) (cols (self s)) (i, j) = true) as [Hi Hj]%inside_spec.
    { apply cell_inside with (grid s); [apply Hvalid | by eexists]. }
    apply bool_decide_eq_true. rewrite (Hcells i j Hi Hj), Hp. by case_match.
  - intros Hout. apply (ndarray_ext _ _ _ _ Ha (valid_shape s Hvalid)).
    intros i j Hi Hj. rewrite (Hcells i j Hi Hj).
    unfold member. rewrite bool_decide_eq_false_2; [done|].
    intros Hin%Hout. apply not_true_iff_false in Hin. apply Hin. by apply inside_spec.
Qed.

Lemma populate_grid_additive_witness :
  ∃ s', populate_grid [(5, 5)] empty3x3 = (Ok tt, s') ∧
    has_shape 3 3 (grid s') ∧
    (∀ i j, 0 ≤ i < 3 → 0 ≤ j < 3 →
       cell (grid s') (i, j) =
         if member (i, j) [(5, 5)] then Some 1 else cell (grid empty3x3) (i, j)) ∧
    (∀ p, alive (grid empty3x3) p = true → alive (grid s') p = true) ∧
    ((∀ p, p ∈ [(5, 5)] → inside 3 3 p = false) → grid s' = grid empty3x3).
Proof. apply (populate_grid_additive empty3x3 [(5, 5)]). apply empty3x3_valid. Defined.

(** C10: the cells and the counter [populate_grid] leaves depend on the set
    of pairs alone.  Two lists with the same members (one a permutation of
    the other, or the other with pairs repeated) lead from a state to the
    same state, and a second call with the same list changes nothing. *)
Theorem populate_grid_order_multiplicity (s : state) (coords coords' : list (Z * Z)) :
  valid s →
  (∀ p, p ∈ coords ↔ p ∈ coords') →
  populate_grid coords s = populate_grid coords' s ∧
  (populate_grid coords;; populate_grid coords) s = populate_grid coords s.
Proof.
  intros Hvalid Hsame.
  destruct (populate_grid_spec s coords (valid_ref s Hvalid) (valid_shape s Hvalid))
    as (a & Hpop & Ha & Hcells).
  destruct (populate_grid_spec s coords' (valid_ref s Hvalid) (valid_shape s Hvalid))
    as (a' & Hpop' & Ha' & Hcells').
  split.
  - rewrite Hpop, Hpop'. do 4 f_equal.
    apply (ndarray_ext _ _ _ _ Ha Ha'). intros i j Hi Hj.
    rewrite (Hcells i j Hi Hj), (Hcells' i j Hi Hj). unfold member.
    by rewrite (bool_decide_ext _ _ (Hsame (i, j))).
  - rewrite (M_bind_Ok _ _ _ _ _ Hpop), Hpop.
    match goal with |- populate_grid _ ?s1 = _ =>
      destruct (populate_grid_spec s1 coords) as (a2 & -> & Ha2 & Hcells2)
    end.
    { cbn. rewrite lookup_insert_eq. by eexists. }
    { by rewrite (grid_insert s (life_grid (self s)) a). }
    cbn [self mem rows cols life_grid arrays random_state] in *.
    rewrite (grid_insert s (life_grid (self s)) a) in Hcells2 by done.
    rewrite insert_insert_eq. do 4 f_equal.
    apply (ndarray_ext _ _ _ _ Ha2 Ha). intros i j Hi Hj.
    rewrite (Hcells2 i j Hi Hj), (Hcells i j Hi Hj). by case_match.
Qed.

Lemma populate_grid_order_multiplicity_witness :
  populate_grid [(0, 0); (1, 2); (5, 5); (0, 0)] empty3x3 =
    populate_grid [(1, 2); (0, 0); (5, 5)] empty3x3 ∧
  (populate_grid [(0, 0); (1, 2); (5, 5); (0, 0)];;
   populate_grid [(0, 0); (1, 2); (5, 5); (0, 0)]) empty3x3 =
    populate_grid [(0, 0); (1, 2); (5, 5); (0, 0)] empty3x3.
Proof.
  apply (populate_grid_order_multiplicity empty3x3); [apply empty3x3_valid|].
  intros p. rewrite !elem_of_cons, !elem_of_nil. tauto.
Defined.

(** ** Construction *)

Lemma init_Ok (r c : Z) (m : memory) :
  0 ≤ r → 0 ≤ c →
  ∃ a,
    __init__ r c m =
      (Ok {| rows := r; cols := c; life_grid := fresh (dom (arrays m)); current_step := 0 |},
       {| arrays := <[fresh (dom (arrays m)):=a]> (arrays m);
          random_state := random_state m |}) ∧
    has_shape r c a ∧
    ∀ i j, 0 ≤ i < r → 0 ≤ j < c → cell a (i, j) = Some 0.
Proof.
  intros Hr Hc. destruct (np_zeros_spec r c Hr Hc) as (a & Hzeros & Ha & Hcells).
  exists a. split; [|done]. unfold __init__.
  rewrite (M_bind_Ok _ _ m m a) by (unfold lift; by rewrite Hzeros).
  by erewrite M_bind_Ok by done.
Qed.

Lemma init_Raise (r c : Z) (m : memory) :
  r < 0 ∨ c < 0 → __init__ r c m = (Raise ValueError, m).
Proof.
  intros Hrc. unfold __init__.
  apply M_bind_Raise. unfold lift. by rewrite np_zeros_negative.
Qed.

Lemma init_valid (r c : Z) (m : memory) :
  0 ≤ r → 0 ≤ c →
  ∃ g m', __init__ r c m = (Ok g, m') ∧
    rows g = r ∧ cols g = c ∧ current_step g = 0 ∧
    valid (constructed g m') ∧
    (∀ l, is_Some (arrays m !! l) → arrays m' !! l = arrays m !! l) ∧
    ∀ i j, 0 ≤ i < r → 0 ≤ j < c → cell (grid (constructed g m')) (i, j) = Some 0.
Proof.
  intros Hr Hc. destruct (init_Ok r c m Hr Hc) as (a & -> & Ha & Hcells).
  eexists _, _. split; [done|]. cbn [rows cols current_step].
  assert (grid (constructed
            {| rows := r; cols := c; life_grid := fresh (dom (arrays m)); current_step := 0 |}
            {| arrays := <[fresh (dom (arrays m)):=a]> (arrays m);
               random_state := random_state m |}) = a) as Hgrid.
  { unfold grid, constructed. cbn. by rewrite lookup_insert_eq. }
  rewrite Hgrid. repeat split; cbn; try done.
  - rewrite lookup_insert_eq. by eexists.
  - rewrite Hgrid. apply Ha.
  - rewrite Hgrid. apply Ha.
  - rewrite Hgrid. apply (binary_intro _ _ _ Ha). intros i j v Hi Hj.
    rewrite Hcells by done. intros [= <-]. by left.
  - intros l Hl. apply lookup_insert_ne. by apply fresh_array.
Qed.

(** C5, counterexample: with zero rows the constructor returns an object. *)
Lemma init_zero_rows_counterexample :
  __init__ 0 5 empty_memory =
    (Ok {| rows := 0; cols := 5; life_grid := 0%nat; current_step := 0 |},
     {| arrays := {[ 0%nat := [] ]}; random_state := random_state empty_memory |}).
Proof. reflexivity. Qed.

(** C5, as the code has it: the constructor checks nothing itself, and fails
    where [np.zeros] does.  With a negative [rows] or [cols] it raises
    [ValueError] and returns no object; with both non-negative, zero included,
    and a shape within the size numpy can address, it returns a [rows] x
    [cols] grid of dead cells and a counter of 0. *)
Theorem init_dimensions (r c : Z) (m : memory) :
  (r < 0 ∨ c < 0 → __init__ r c m = (Raise ValueError, m)) ∧
  (0 ≤ r → 0 ≤ c → numpy_size_limit r c →
   ∃ g m', __init__ r c m = (Ok g, m') ∧
     rows g = r ∧ cols g = c ∧ current_step g = 0 ∧
     has_shape r c (grid (constructed g m')) ∧
     ∀ i j, 0 ≤ i < r → 0 ≤ j < c → cell (grid (constructed g m')) (i, j) = Some 0).
Proof.
  split; [apply init_Raise|]. intros Hr Hc _.
  destruct (init_valid r c m Hr Hc)
    as (g & m' & Hinit & Hrows & Hcols & Hstep & Hvalid & _ & Hcells).
  exists g, m'. split; [done|]. do 3 (split; [done|]). split; [|done].
  pose proof (valid_shape _ Hvalid) as Hshape.
  unfold constructed in Hshape |- *. cbn [self] in Hshape.
  by rewrite Hrows, Hcols in Hshape.
Qed.

Lemma init_dimensions_witness :
  __init__ (-1) 3 empty_memory = (Raise ValueError, empty_memory) ∧
  ∃ g m', __init__ 3 3 empty_memory = (Ok g, m') ∧
    rows g = 3 ∧ cols g = 3 ∧ current_step g = 0 ∧
    has_shape 3 3 (grid (constructed g m')) ∧
    ∀ i j, 0 ≤ i < 3 → 0 ≤ j < 3 → cell (grid (constructed g m')) (i, j) = Some 0.
Proof.
  split.
  - apply (proj1 (init_dimensions (-1) 3 empty_memory)). left. lia.
  - apply (proj2 (init_dimensions 3 3 empty_memory)); unfold numpy_size_limit; lia.
Defined.

(** ** Several generations *)

Lemma for_each_make_step {A} (l : list A) (s : state) :
  for_each l (λ _, make_step) s = repeat_step (length l) s.
Proof.
  revert s. induction l as [|x l IH]; intros s; [done|].
  cbn [for_each length repeat_step]. unfold mbind, M_bind.
  destruct (make_step s) as [[[]|e] s']; [apply IH | done].
Qed.

Lemma make_n_steps_eq (n : Z) (s : state) :
  make_n_steps n s = repeat_step (Z.to_nat n) s.
Proof.
  unfold make_n_steps. rewrite for_each_make_step. unfold range.
  rewrite length_seqZ. do 2 f_equal. lia.
Qed.

Lemma repeat_step_valid (k : nat) (s : state) :
  valid s →
  ∃ s', repeat_step k s = (Ok tt, s') ∧ keeps_dimensions s s' ∧
    current_step (self s') = current_step (self s) + Z.of_nat k.
Proof.
  revert s. induction k as [|k IH]; intros s Hvalid.
  - exists s. split; [done|]. split; [done|]. cbn. lia.
  - destruct (make_step_next s Hvalid)
      as (s1 & Hstep & Hvalid1 & Hrows & Hcols & Hcount & _).
    destruct (IH s1 Hvalid1) as (s' & Hrepeat & (Hvalid' & Hrows' & Hcols') & Hcount').
    exists s'. cbn [repeat_step]. rewrite (M_bind_Ok _ _ _ _ _ Hstep).
    split; [done|]. split; [split; [done|split; congruence]|]. lia.
Qed.

Lemma make_n_steps_negative (n : Z) (s : state) :
  n ≤ 0 → make_n_steps n s = (Ok tt, s).
Proof.
  intros Hn. unfold make_n_steps, range, seqZ.
  replace (Z.to_nat (n + 1 - 1)) with 0%nat by lia. done.
Qed.

(** C3: [make_n_steps n] is [make_step] called [n] times in a row, for the
    result, the cells and the counter alike, and [make_n_steps 0] changes
    nothing. *)
Theorem make_n_steps_repeat (s : state) (n : Z) :
  0 ≤ n →
  make_n_steps n s = repeat_step (Z.to_nat n) s ∧
  make_n_steps 0 s = (Ok tt, s).
Proof.
  intros Hn. split; [apply make_n_steps_eq | by apply make_n_steps_negative].
Qed.

Lemma make_n_steps_repeat_witness :
  make_n_steps 2 blinker = repeat_step (Z.to_nat 2) blinker ∧
  make_n_steps 0 blinker = (Ok tt, blinker).
Proof. apply (make_n_steps_repeat blinker 2). lia. Defined.

(** C6, counterexample: [make_n_steps (-1)] raises nothing. *)
Lemma make_n_steps_minus_one_counterexample :
  make_n_steps (-1) blinker = (Ok tt, blinker).
Proof. reflexivity. Qed.

(** C6, as the code has it: [range(1, n + 1)] is empty for a negative [n], so
    the call returns without raising, and the cells and the counter are what
    they were. *)
Theorem make_n_steps_negative_noop (s : state) (n : Z) :
  n < 0 → make_n_steps n s = (Ok tt, s).
Proof. intros Hn. apply make_n_steps_negative. lia. Qed.

Lemma make_n_steps_negative_noop_witness :
  make_n_steps (-1) blinker = (Ok tt, blinker).
Proof. apply (make_n_steps_negative_noop blinker (-1)). lia. Defined.

(** ** Random seeding *)

Lemma np_random_choice01_reject (shape : Z * Z) (d : Q) (m : memory) :
  (d < 0 ∨ 1 < d)%Q →
  np_random_choice01 shape (1 - d)%Q d m = (Raise ValueError, m).
Proof.
  intros Hd. unfold np_random_choice01. destruct shape as [r c].
  assert (negb (Qle_bool 0 (1 - d)) || negb (Qle_bool 0 d) = true) as ->; [|done].
  apply orb_true_iff.
  destruct Hd as [Hd|Hd]; [right|left]; apply negb_true_iff, not_true_iff_false;
    intros Hle%Qle_bool_iff; lra.
Qed.

Lemma np_random_choice01_Ok (r c : Z) (d : Q) (m : memory) :
  0 ≤ r → 0 ≤ c → (0 <= d <= 1)%Q →
  ∃ a rnd,
    np_random_choice01 (r, c) (1 - d)%Q d m =
      (Ok a, {| arrays := arrays m; random_state := rnd |}) ∧
    has_shape r c a ∧ binary a.
Proof.
  intros Hr Hc Hd. unfold np_random_choice01.
  assert (negb (Qle_bool 0 (1 - d)) || negb (Qle_bool 0 d) = false) as ->.
  { apply orb_false_iff. split; apply negb_false_iff, Qle_bool_iff; lra. }
  assert (negb (Qeq_bool (1 - d + d) 1) = false) as ->.
  { apply negb_false_iff, Qeq_bool_iff. ring. }
  destruct (Z.ltb_spec r 0); [lia|]. destruct (Z.ltb_spec c 0); [lia|]. cbn [orb].
  eexists _, _. split; [done|]. split; [split|].
  - by rewrite length_fmap, length_seq.
  - apply Forall_fmap, Forall_forall. intros i _. cbn.
    by rewrite length_fmap, length_seq.
  - apply Forall_fmap, Forall_forall. intros i _. cbn.
    apply Forall_fmap, Forall_forall. intros j _. cbn. case_match; auto.
Qed.

Lemma randomize_reject (s : state) (d : Q) :
  (d < 0 ∨ 1 < d)%Q → randomize d s = (Raise ValueError, s).
Proof.
  intros Hd. destruct s as [g m]. unfold randomize.
  erewrite M_bind_Ok by done. apply M_bind_Raise.
  unfold in_mem. cbn [self mem]. by rewrite np_random_choice01_reject.
Qed.

Lemma randomize_Ok (s : state) (d : Q) :
  valid s → (0 <= d <= 1)%Q →
  ∃ a rnd,
    randomize d s =
      (Ok tt,
       {| self := {| rows := rows (self s); cols := cols (self s);
                     life_grid := fresh (dom (arrays (mem s)));
                     current_step := 0 |};
          mem := {| arrays := <[fresh (dom (arrays (mem s))):=a]> (arrays (mem s));
                    random_state := rnd |} |}) ∧
    has_shape (rows (self s)) (cols (self s)) a ∧ binary a.
Proof.
  intros Hvalid Hd.
  destruct (np_random_choice01_Ok _ _ d (mem s) (valid_rows s Hvalid) (valid_cols s Hvalid) Hd)
    as (a & rnd & Hchoice & Ha & Hbin).
  exists a, rnd. split; [|done]. unfold randomize.
  erewrite M_bind_Ok by done.
  erewrite M_bind_Ok by (unfold in_mem; by rewrite Hchoice).
  erewrite M_bind_Ok by (unfold in_mem; cbn [mem]; done).
  erewrite M_bind_Ok by done. done.
Qed.

(** C7: a density below 0 or above 1 makes [np.random.choice] reject the
    probabilities [1 - density, density] with a [ValueError] before it draws
    anything and before [randomize] assigns anything: the call raises, and
    the cells, the counter and the generator are what they were. *)
Theorem randomize_rejects_density (s : state) (density : Q) :
  (density < 0 ∨ 1 < density)%Q →
  randomize density s = (Raise ValueError, s).
Proof. apply randomize_reject. Qed.

Lemma randomize_rejects_density_witness :
  randomize (3 # 2) blinker = (Raise ValueError, blinker).
Proof. apply (randomize_rejects_density blinker (3 # 2)). right. reflexivity. Defined.

(** ** The grid handed out *)

Lemma caller_writes_spec (s : state) (r c v : Z) :
  valid s →
  0 ≤ r < rows (self s) → 0 ≤ c < cols (self s) → - 2 ^ 63 ≤ v < 2 ^ 63 →
  ∃ s', caller_writes (life_grid (self s)) r c v s = (Ok tt, s') ∧
    self s' = self s ∧
    cell (grid s') (r, c) = Some v ∧
    ∀ p, p ≠ (r, c) → cell (grid s') p = cell (grid s) p.
Proof.
  intros [_ _ [a0 Ha0] Hshape _] Hr Hc Hv.
  assert (grid s = a0) as Hgrid by (unfold grid; by rewrite Ha0).
  rewrite Hgrid in *.
  destruct (setitem2_Ok _ _ _ r c v Hshape Hr Hc) as (a1 & Hset & Ha1 & Hcell & Hothers).
  unfold caller_writes, in_mem.
  rewrite (array_setitem2_Ok _ _ _ _ _ a0 a1) by done.
  eexists. split; [done|]. split; [done|].
  by rewrite (grid_insert s (life_grid (self s)) a1).
Qed.

(** C2, counterexample: on an all-dead 3 x 3 grid a write through what
    [get_grid] returned is a write to the engine's cells. *)
Lemma get_grid_alias_counterexample :
  ∃ l s1 s2,
    get_grid empty3x3 = (Ok l, s1) ∧
    caller_writes l 0 0 1 s1 = (Ok tt, s2) ∧
    grid empty3x3 = [[0; 0; 0]; [0; 0; 0]; [0; 0; 0]] ∧
    grid s2 = [[1; 0; 0]; [0; 0; 0]; [0; 0; 0]] ∧
    grid s2 ≠ grid empty3x3.
Proof.
  eexists _, _, _. split; [reflexivity|]. split; [reflexivity|].
  split; [reflexivity|]. split; [reflexivity|]. by vm_compute.
Qed.

(** C2, as the code has it: [get_grid] changes nothing and returns the
    reference held in [life_grid], the array the engine works on and no copy
    of it.  A caller that writes a 64-bit value [v] at a position of the grid
    through that reference sets the engine's cell there to [v]; the other
    cells, the dimensions and the counter stay as they are. *)
Theorem get_grid_alias (s : state) :
  valid s →
  get_grid s = (Ok (life_grid (self s)), s) ∧
  ∀ r c v, 0 ≤ r < rows (self s) → 0 ≤ c < cols (self s) → - 2 ^ 63 ≤ v < 2 ^ 63 →
    ∃ s', caller_writes (life_grid (self s)) r c v s = (Ok tt, s') ∧
      self s' = self s ∧
      cell (grid s') (r, c) = Some v ∧
      ∀ p, p ≠ (r, c) → cell (grid s') p = cell (grid s) p.
Proof.
  intros Hvalid. split; [done|]. intros r c v. by apply caller_writes_spec.
Qed.

Lemma get_grid_alias_witness :
  get_grid empty3x3 = (Ok 0%nat, empty3x3) ∧
  ∃ s', caller_writes 0%nat 1 2 7 empty3x3 = (Ok tt, s') ∧
    self s' = self empty3x3 ∧
    cell (grid s') (1, 2) = Some 7 ∧
    ∀ p, p ≠ (1, 2) → cell (grid s') p = cell (grid empty3x3) p.
Proof.
  destruct (get_grid_alias empty3x3 empty3x3_valid) as [Hget Hwrite].
  split; [exact Hget|]. apply (Hwrite 1 2 7); cbn; lia.
Defined.

(** ** The invariant *)

Lemma randomize_resets (s : state) (d : Q) :
  valid s → (0 <= d <= 1)%Q →
  ∃ s', randomize d s = (Ok tt, s') ∧ keeps_dimensions s s' ∧
        current_step (self s') = 0.
Proof.
  intros Hvalid Hd.
  destruct (randomize_Ok s d Hvalid Hd) as (a & rnd & -> & Ha & Hbin).
  eexists. split; [done|]. split; [|done]. split; [|done].
  destruct Hvalid as [Hr Hc Href Hshape Hbin0].
  split; cbn [self mem rows cols life_grid arrays]; [done..| | |].
  - rewrite lookup_insert_eq. by eexists.
  - unfold grid. cbn. by rewrite lookup_insert_eq.
  - unfold grid. cbn. by rewrite lookup_insert_eq.
Qed.

(** C8: the invariant of the grid.  An object the constructor returns is
    valid (its array is [rows] x [cols], of zeros and ones) with a counter of
    0.  From a valid state every operation leaves a valid state with the
    same [rows] and [cols]: [make_step] succeeds and adds exactly 1 to the
    counter; [randomize] with a density from 0 to 1 succeeds and sets the
    counter to 0, and with any other density raises and changes nothing;
    [populate_grid] succeeds and sets the counter to 0; [make_n_steps n]
    succeeds and adds [n] (nothing for a negative [n]); [get_grid] changes
    nothing. *)
Theorem grid_invariant :
  (∀ r c m g m', __init__ r c m = (Ok g, m') →
     valid (constructed g m') ∧ rows g = r ∧ cols g = c ∧ current_step g = 0) ∧
  (∀ s, valid s →
     (∃ s', make_step s = (Ok tt, s') ∧ keeps_dimensions s s' ∧
            current_step (self s') = current_step (self s) + 1) ∧
     (∀ density,
        ((0 <= density <= 1)%Q →
         ∃ s', randomize density s = (Ok tt, s') ∧ keeps_dimensions s s' ∧
               current_step (self s') = 0) ∧
        ((density < 0 ∨ 1 < density)%Q →
         randomize density s = (Raise ValueError, s))) ∧
     (∀ coords,
        ∃ s', populate_grid coords s = (Ok tt, s') ∧ keeps_dimensions s s' ∧
              current_step (self s') = 0) ∧
     (∀ n,
        ∃ s', make_n_steps n s = (Ok tt, s') ∧ keeps_dimensions s s' ∧
              current_step (self s') = current_step (self s) + Z.max 0 n) ∧
     get_grid s = (Ok (life_grid (self s)), s)).
Proof.
  split.
  - intros r c m g m' Hinit.
    destruct (Z.lt_ge_cases r 0) as [Hr|Hr].
    { rewrite init_Raise in Hinit by lia. discriminate. }
    destruct (Z.lt_ge_cases c 0) as [Hc|Hc].
    { rewrite init_Raise in Hinit by lia. discriminate. }
    destruct (init_valid r c m Hr Hc) as (g0 & m0 & Hinit0 & ? & ? & ? & ? & _).
    rewrite Hinit in Hinit0. by injection Hinit0 as <- <-.
  - intros s Hvalid. split; [|split; [|split; [|split]]].
    + destruct (make_step_next s Hvalid) as (s' & ? & ? & ? & ? & ? & _).
      exists s'. split; [done|]. split; [by split|done].
    + intros density. split; [by apply randomize_resets | apply randomize_reject].
    + intros coords.
      destruct (populate_grid_spec s coords (valid_ref s Hvalid) (valid_shape s Hvalid))
        as (a & -> & Ha & Hcells).
      eexists. split; [done|]. split; [|done]. split; [|done].
      apply valid_seeded; [done..|].
      apply (binary_intro _ _ _ Ha). intros i j v Hi Hj. rewrite (Hcells i j Hi Hj).
      case_match; [intros [= <-]; by right|].
      apply binary_cell, Hvalid.
    + intros n. rewrite make_n_steps_eq.
      destruct (repeat_step_valid (Z.to_nat n) s Hvalid) as (s' & ? & ? & ?).
      exists s'. split; [done|]. split; [done|]. lia.
    + done.
Qed.

Lemma blinker_gen5_valid : valid blinker_gen5.
Proof. valid_by_computation. Defined.

Lemma grid_invariant_witness :
  (valid (constructed
            {| rows := 3; cols := 3; life_grid := 0%nat; current_step := 0 |}
            (mem empty3x3)) ∧ 3 = 3 ∧ 3 = 3 ∧ 0 = 0) ∧
  (∃ s', make_step blinker = (Ok tt, s') ∧ keeps_dimensions blinker s' ∧
         current_step (self s') = current_step (self blinker) + 1) ∧
  (∃ s', randomize (1 # 2) blinker_gen5 = (Ok tt, s') ∧
         keeps_dimensions blinker_gen5 s' ∧ current_step (self s') = 0) ∧
  randomize (3 # 2) blinker_gen5 = (Raise ValueError, blinker_gen5) ∧
  (∃ s', populate_grid [(0, 0)] blinker = (Ok tt, s') ∧ keeps_dimensions blinker s' ∧
         current_step (self s') = 0) ∧
  (∃ s', populate_grid [(0, 0)] blinker_gen5 = (Ok tt, s') ∧
         keeps_dimensions blinker_gen5 s' ∧ current_step (self s') = 0).
Proof.
  destruct grid_invariant as [Hinit Hops].
  split; [|split; [|split; [|split; [|split]]]].
  - apply (Hinit 3 3 empty_memory). reflexivity.
  - apply (Hops blinker blinker_valid).
  - apply (Hops blinker_gen5 blinker_gen5_valid). split; reflexivity || discriminate.
  - apply (Hops blinker_gen5 blinker_gen5_valid). right. reflexivity.
  - apply (Hops blinker blinker_valid).
  - apply (Hops blinker_gen5 blinker_gen5_valid).
Defined.

(** ** Patterns away from the edges *)

Lemma within_spec (lo hi : Z) (S : list (Z * Z)) (p : Z * Z) :
  within lo hi S = true → p ∈ S → lo ≤ p.1 ≤ hi ∧ lo ≤ p.2 ≤ hi.
Proof.
  unfold within. rewrite forallb_forall. intros Hall Hp%list_elem_of_In.
  specialize (Hall p Hp). rewrite !andb_true_iff, !Z.leb_le in Hall. lia.
Qed.

Lemma member_false_outside (lo hi : Z) (S : list (Z * Z)) (p : Z * Z) :
  within lo hi S = true → ¬ (lo ≤ p.1 ≤ hi ∧ lo ≤ p.2 ≤ hi) → member p S = false.
Proof.
  intros HS Hout. apply bool_decide_eq_false. intros Hin. apply Hout.
  by apply within_spec with S.
Qed.

Lemma filter_none {A} (f : A → bool) (l : list A) :
  (∀ x, x ∈ l → f x = false) → List.filter f l = [].
Proof.
  induction l as [|x l IH]; intros Hall; [done|]. cbn.
  rewrite (Hall x) by (apply elem_of_cons; by left).
  apply IH. intros y Hy. apply Hall, elem_of_cons. by right.
Qed.

Lemma surrounding_near (i j : Z) (p : Z * Z) :
  p ∈ surrounding i j → i - 1 ≤ p.1 ≤ i + 1 ∧ j - 1 ≤ p.2 ≤ j + 1.
Proof.
  unfold surrounding. rewrite !elem_of_cons, elem_of_nil.
  intros [->|[->|[->|[->|[->|[->|[->|[->|[]]]]]]]]]; cbn; lia.
Qed.

(** What [evolves] checks on a square holds on the whole plane: outside the
    square nothing is alive and nothing is born. *)
Lemma evolves_spec (lo hi : Z) (S S' : list (Z * Z)) :
  evolves lo hi S S' = true →
  ∀ i j, conway (member (i, j) S) (live_around S i j) = if member (i, j) S' then 1 else 0.
Proof.
  unfold evolves. rewrite !andb_true_iff. intros [[HS HS'] Hcheck] i j.
  destruct (decide (lo - 1 ≤ i ≤ hi + 1 ∧ lo - 1 ≤ j ≤ hi + 1)) as [[Hi Hj]|Hfar].
  - rewrite forallb_forall in Hcheck. specialize (Hcheck i).
    rewrite forallb_forall in Hcheck. apply Z.eqb_eq, Hcheck.
    + apply list_elem_of_In, elem_of_seqZ. lia.
    + apply list_elem_of_In, elem_of_seqZ. lia.
  - rewrite (member_false_outside lo hi S) by (done || cbn; lia).
    rewrite (member_false_outside (lo - 1) (hi + 1) S') by (done || cbn; lia).
    unfold live_around. rewrite filter_none; [done|].
    intros p Hp%surrounding_near. apply (member_false_outside lo hi); [done|]. lia.
Qed.

Lemma shows_alive (r c : Z) (a : ndarray) (S : list (Z * Z)) (hi : Z) :
  shows r c a S → within 0 hi S = true → hi < r → hi < c →
  ∀ p, alive a p = member p S.
Proof.
  intros [Ha Hcells] HS Hr Hc [i j].
  destruct (inside r c (i, j)) eqn:Hin.
  - apply inside_spec in Hin as [Hi Hj].
    rewrite (alive_cell _ _ _ (Hcells i j Hi Hj)). by case_match.
  - rewrite (member_false_outside 0 hi S); [|done|].
    + apply bool_decide_eq_false. intros Hcell.
      assert (inside r c (i, j) = true) by (apply (cell_inside r c a); [done|by eexists]).
      congruence.
    + cbn. intros [Hi Hj]. apply not_true_iff_false in Hin. apply Hin, inside_spec. lia.
Qed.

Lemma shows_alive_neighbors (r c : Z) (a : ndarray) (S : list (Z * Z)) (hi i j : Z) :
  shows r c a S → within 0 hi S = true → hi < r → hi < c →
  alive_neighbors a r c i j = live_around S i j.
Proof.
  intros Hshows HS Hr Hc. unfold alive_neighbors, counted_positions, live_around.
  rewrite filter_filter_andb. do 2 f_equal. apply List.filter_ext. intros [i' j'].
  rewrite (shows_alive r c a S hi) by done.
  destruct (member (i', j') S) eqn:Hin; [|apply andb_false_r].
  apply bool_decide_eq_true, (within_spec 0 hi) in Hin; [|done]. cbn in Hin.
  rewrite andb_true_r. apply inside_spec. lia.
Qed.

(** One generation of a pattern that stays off the edges of the grid. *)
Lemma make_step_shows (s : state) (S S' : list (Z * Z)) (hi : Z) :
  valid s → shows (rows (self s)) (cols (self s)) (grid s) S →
  hi < rows (self s) → hi < cols (self s) → evolves 0 hi S S' = true →
  ∃ s', make_step s = (Ok tt, s') ∧ keeps_dimensions s s' ∧
    shows (rows (self s)) (cols (self s)) (grid s') S'.
Proof.
  intros Hvalid Hshows Hr Hc Hev.
  destruct (make_step_next s Hvalid)
    as (s' & Hstep & Hvalid' & Hrows & Hcols & _ & _ & _ & _ & Hcells).
  exists s'. split; [done|]. split; [by split|]. split.
  - rewrite <- Hrows, <- Hcols. apply Hvalid'.
  - intros i j Hi Hj. rewrite (Hcells i j Hi Hj).
    assert (within 0 hi S = true) as HS.
    { unfold evolves in Hev. by apply andb_true_iff in Hev as [[? _]%andb_true_iff _]. }
    rewrite (shows_alive _ _ _ S hi), (shows_alive_neighbors _ _ _ S hi) by done.
    by rewrite (evolves_spec 0 hi S S').
Qed.

Lemma populate_grid_next (s : state) (coords : list (Z * Z)) :
  valid s →
  ∃ s', populate_grid coords s = (Ok tt, s') ∧ keeps_dimensions s s' ∧
    current_step (self s') = 0 ∧
    ∀ i j, 0 ≤ i < rows (self s) → 0 ≤ j < cols (self s) →
      cell (grid s') (i, j) = if member (i, j) coords then Some 1 else cell (grid s) (i, j).
Proof.
  intros Hvalid.
  destruct (populate_grid_spec s coords (valid_ref s Hvalid) (valid_shape s Hvalid))
    as (a & -> & Ha & Hcells).
  eexists. split; [done|]. rewrite (grid_insert s (life_grid (self s)) a) by done.
  split; [|done]. split; [|done].
  apply valid_seeded; [done..|].
  apply (binary_intro _ _ _ Ha). intros i j v Hi Hj. rewrite (Hcells i j Hi Hj).
  case_match; [intros [= <-]; by right|]. apply binary_cell, Hvalid.
Qed.

Lemma all_dead_check (r c : Z) (a : ndarray) :
  forallb (λ i, forallb (λ j, bool_decide (cell a (i, j) = Some 0)) (range 0 c))
    (range 0 r) = true →
  ∀ i j, 0 ≤ i < r → 0 ≤ j < c → cell a (i, j) = Some 0.
Proof.
  intros Hcheck i j Hi Hj. rewrite forallb_forall in Hcheck. specialize (Hcheck i).
  rewrite forallb_forall in Hcheck.
  apply (proj1 (bool_decide_eq_true (cell a (i, j) = Some 0))), Hcheck.
  - apply list_elem_of_In, elem_of_seqZ. lia.
  - apply list_elem_of_In, elem_of_seqZ. lia.
Qed.

Lemma empty6x6_valid : valid empty6x6.
Proof. valid_by_computation. Defined.

(** C9: on a grid of at least 6 x 6 dead cells, seeding the five cells of
    the glider and calling [make_step] four times succeeds, and the alive
    cells are then exactly the five cells of the glider moved by (+1, +1):
    each of them holds a one and every other cell of the grid a zero. *)
Theorem glider_translates (s : state) :
  valid s → 6 ≤ rows (self s) → 6 ≤ cols (self s) →
  (∀ i j, 0 ≤ i < rows (self s) → 0 ≤ j < cols (self s) →
     cell (grid s) (i, j) = Some 0) →
  ∃ s',
    (populate_grid glider;; make_step;; make_step;; make_step;; make_step) s = (Ok tt, s') ∧
    has_shape (rows (self s)) (cols (self s)) (grid s') ∧
    (∀ i j, 0 ≤ i < rows (self s) → 0 ≤ j < cols (self s) →
       cell (grid s') (i, j) = Some (if member (i, j) (translate 1 1 glider) then 1 else 0)) ∧
    ∀ p, alive (grid s') p = true ↔ p ∈ translate 1 1 glider.
Proof.
  intros Hvalid Hr Hc Hdead.
  destruct (populate_grid_next s glider Hvalid)
    as (s0 & Hpop & (Hvalid0 & Hrows0 & Hcols0) & _ & Hcells0).
  assert (shows (rows (self s0)) (cols (self s0)) (grid s0) glider) as Hshows0.
  { split; [apply Hvalid0|]. rewrite Hrows0, Hcols0. intros i j Hi Hj.
    rewrite (Hcells0 i j Hi Hj), (Hdead i j Hi Hj). by case_match. }
  destruct (make_step_shows s0 glider glider1 3 Hvalid0 Hshows0)
    as (s1 & Hstep1 & (Hvalid1 & Hrows1 & Hcols1) & Hshows1); [lia..|done|].
  rewrite <- Hrows1, <- Hcols1 in Hshows1.
  destruct (make_step_shows s1 glider1 glider2 3 Hvalid1 Hshows1)
    as (s2 & Hstep2 & (Hvalid2 & Hrows2 & Hcols2) & Hshows2); [lia..|done|].
  rewrite <- Hrows2, <- Hcols2 in Hshows2.
  destruct (make_step_shows s2 glider2 glider3 3 Hvalid2 Hshows2)
    as (s3 & Hstep3 & (Hvalid3 & Hrows3 & Hcols3) & Hshows3); [lia..|done|].
  rewrite <- Hrows3, <- Hcols3 in Hshows3.
  destruct (make_step_shows s3 glider3 (translate 1 1 glider) 3 Hvalid3 Hshows3)
    as (s4 & Hstep4 & (Hvalid4 & Hrows4 & Hcols4) & Hshows4); [lia..|done|].
  assert (rows (self s3) = rows (self s)) as Hrows by congruence.
  assert (cols (self s3) = cols (self s)) as Hcols by congruence.
  rewrite Hrows, Hcols in Hshows4.
  exists s4. split; [|split; [apply Hshows4|split; [apply Hshows4|]]].
  - rewrite (M_bind_Ok _ _ _ _ _ Hpop), (M_bind_Ok _ _ _ _ _ Hstep1),
      (M_bind_Ok _ _ _ _ _ Hstep2), (M_bind_Ok _ _ _ _ _ Hstep3). exact Hstep4.
  - intros p. rewrite (shows_alive _ _ _ _ 3 Hshows4) by (done || lia).
    apply bool_decide_eq_true.
Qed.

Lemma glider_translates_witness :
  ∃ s',
    (populate_grid glider;; make_step;; make_step;; make_step;; make_step) empty6x6
      = (Ok tt, s') ∧
    has_shape 6 6 (grid s') ∧
    (∀ i j, 0 ≤ i < 6 → 0 ≤ j < 6 →
       cell (grid s') (i, j) = Some (if member (i, j) (translate 1 1 glider) then 1 else 0)) ∧
    ∀ p, alive (grid s') p = true ↔ p ∈ translate 1 1 glider.
Proof.
  apply (glider_translates empty6x6 empty6x6_valid); [cbn; lia | cbn; lia |].
  apply all_dead_check. reflexivity.
Defined.

(** ** The methods at work on small grids *)

Example blinker_turns :
  make_step blinker =
    (Ok tt,
     {| self := {| rows := 3; cols := 3; life_grid := 1%nat; current_step := 1 |};
        mem := {| arrays := {[ 0%nat := [[0; 1; 0]; [0; 1; 0]; [0; 1; 0]];
                               1%nat := [[0; 0; 0]; [1; 1; 1]; [0; 0; 0]] ]};
                  random_state := random_state (mem blinker) |} |}).
Proof. reflexivity. Qed.

Example populate_corner :
  grid (populate_grid [(0, 0)] empty3x3).2 = [[1; 0; 0]; [0; 0; 0]; [0; 0; 0]].
Proof. reflexivity. Qed.

Example populate_out_of_range :
  populate_grid [(5, 5)] empty3x3 = (Ok tt, empty3x3).
Proof. reflexivity. Qed.

Example lone_cell_dies :
  grid ((populate_grid [(1, 1)];; make_step) empty3x3).2 =
    [[0; 0; 0]; [0; 0; 0]; [0; 0; 0]].
Proof. reflexivity. Qed.

Example corner_counts_three :
  counted_positions 3 3 0 0 = [(0, 1); (1, 0); (1, 1)].
Proof. reflexivity. Qed.

Example randomize_all_alive :
  grid (randomize 1 empty3x3).2 = [[1; 1; 1]; [1; 1; 1]; [1; 1; 1]].
Proof. reflexivity. Qed.

Example glider_after_four :
  grid ((populate_grid glider;; make_n_steps 4) empty6x6).2 =
    [[0; 0; 0; 0; 0; 0];
     [0; 0; 0; 1; 0; 0];
     [0; 1; 0; 1; 0; 0];
     [0; 0; 1; 1; 0; 0];
     [0; 0; 0; 0; 0; 0];
     [0; 0; 0; 0; 0; 0]].
Proof. vm_compute. reflexivity. Qed.

(** * Beyond the invariant: failure, sharing, composition *)

(** ** A step that fails *)

(** X1: when [make_step] raises, which it can only do on a state whose
    [rows] and [cols] disagree with the array, the counter has already been
    incremented and nothing else has changed: [life_grid] and every array
    are as before the call. *)
Theorem make_step_failure (s s' : state) (e : exn) :
  make_step s = (Raise e, s') →
  s' = {| self := {| rows := rows (self s); cols := cols (self s);
                     life_grid := life_grid (self s);
                     current_step := current_step (self s) + 1 |};
          mem := mem s |}.
Proof.
  unfold make_step. erewrite M_bind_Ok by done. cbn zeta.
  erewrite M_bind_Ok by done.
  erewrite M_bind_Ok by (unfold in_mem, read_array; cbn [mem self]; done).
  cbn [self rows cols life_grid current_step mem].
  destruct (count_neighbors _ _ _) as [nb|e1] eqn:Hcount.
  2:{ erewrite M_bind_Raise by done. by intros [= <- <-]. }
  erewrite M_bind_Ok by done.
  destruct (apply_rules _ nb _ _) as [a|e2] eqn:Hrules.
  2:{ erewrite M_bind_Raise by done. by intros [= <- <-]. }
  erewrite M_bind_Ok by done.
  erewrite M_bind_Ok by (unfold in_mem, new_array; cbn [mem]; done).
  discriminate.
Qed.

Lemma make_step_failure_witness :
  make_step mismatched = (Raise IndexError,
    {| self := {| rows := 4; cols := 3; life_grid := 0%nat; current_step := 7 + 1 |};
       mem := mem mismatched |}) ∧
  snd (make_step mismatched) =
    {| self := {| rows := rows (self mismatched); cols := cols (self mismatched);
                  life_grid := life_grid (self mismatched);
                  current_step := current_step (self mismatched) + 1 |};
       mem := mem mismatched |}.
Proof.
  split; [reflexivity|].
  apply (make_step_failure mismatched _ IndexError). reflexivity.
Defined.

(** ** What the methods leave alone *)

Lemma populate_grid_frame (s s' : state) (coords : list (Z * Z)) (l : loc) :
  valid s → populate_grid coords s = (Ok tt, s') → l ≠ life_grid (self s) →
  arrays (mem s') !! l = arrays (mem s) !! l.
Proof.
  intros Hvalid Hpop Hne.
  destruct (populate_grid_spec s coords (valid_ref s Hvalid) (valid_shape s Hvalid))
    as (a & Hspec & _).
  rewrite Hspec in Hpop. injection Hpop as <-. cbn. by rewrite lookup_insert_ne.
Qed.

Lemma randomize_frame (s s' : state) (d : Q) (res : result unit) (l : loc) :
  valid s → randomize d s = (res, s') → is_Some (arrays (mem s) !! l) →
  arrays (mem s') !! l = arrays (mem s) !! l.
Proof.
  intros Hvalid Hrand Hl.
  destruct (Qlt_le_dec d 0) as [Hneg|Hpos].
  { rewrite randomize_reject in Hrand by (by left). by injection Hrand as _ <-. }
  destruct (Qlt_le_dec 1 d) as [Hbig|Hsmall].
  { rewrite randomize_reject in Hrand by (by right). by injection Hrand as _ <-. }
  destruct (randomize_Ok s d Hvalid (conj Hpos Hsmall)) as (a & rnd & Hok & _).
  rewrite Hok in Hrand. injection Hrand as _ <-. cbn.
  apply lookup_insert_ne. by apply fresh_array.
Qed.

(** Several steps from a valid state: they succeed, and leave every array
    that existed as it was. *)
Lemma repeat_step_next (k : nat) (s : state) :
  valid s →
  ∃ s', repeat_step k s = (Ok tt, s') ∧ keeps_dimensions s s' ∧
    current_step (self s') = current_step (self s) + Z.of_nat k ∧
    ∀ l, is_Some (arrays (mem s) !! l) → arrays (mem s') !! l = arrays (mem s) !! l.
Proof.
  revert s. induction k as [|k IH]; intros s Hvalid.
  - exists s. split; [done|]. split; [done|]. split; [cbn; lia|done].
  - destruct (make_step_next s Hvalid)
      as (s1 & Hstep & Hvalid1 & Hrows & Hcols & Hcount & _ & _ & Hold & _).
    destruct (IH s1 Hvalid1)
      as (s' & Hrepeat & (Hvalid' & Hrows' & Hcols') & Hcount' & Hold').
    exists s'. cbn [repeat_step]. rewrite (M_bind_Ok _ _ _ _ _ Hstep).
    split; [done|]. split; [split; [done|split; congruence]|]. split; [lia|].
    intros l Hl. rewrite Hold' by (by rewrite Hold). by apply Hold.
Qed.

(** X2: no method touches an array other than its own.  From a valid state
    [make_step], [make_n_steps] and [randomize] leave every array that
    exists as it is, the one [life_grid] referred to included (they build
    the next grid in a new array); [populate_grid] leaves every array but
    the one [life_grid] refers to as it is. *)
Theorem methods_frame (s : state) (l : loc) (a : ndarray) :
  valid s → arrays (mem s) !! l = Some a →
  (∀ s', make_step s = (Ok tt, s') → arrays (mem s') !! l = Some a) ∧
  (∀ n s', make_n_steps n s = (Ok tt, s') → arrays (mem s') !! l = Some a) ∧
  (∀ density res s', randomize density s = (res, s') → arrays (mem s') !! l = Some a) ∧
  (∀ coords s', l ≠ life_grid (self s) → populate_grid coords s = (Ok tt, s') →
     arrays (mem s') !! l = Some a).
Proof.
  intros Hvalid Hl. assert (is_Some (arrays (mem s) !! l)) as Hsome by by eexists.
  split; [|split; [|split]].
  - intros s' Hstep.
    destruct (make_step_next s Hvalid) as (s1 & Hstep1 & _ & _ & _ & _ & _ & _ & Hold & _).
    rewrite Hstep1 in Hstep. injection Hstep as <-. by rewrite Hold.
  - intros n s' Hsteps. rewrite make_n_steps_eq in Hsteps.
    destruct (repeat_step_next (Z.to_nat n) s Hvalid) as (s1 & Hrepeat & _ & _ & Hold).
    rewrite Hrepeat in Hsteps. injection Hsteps as <-. by rewrite Hold.
  - intros d res s' Hrand. by rewrite (randomize_frame s s' d res l).
  - intros coords s' Hne Hpop. by rewrite (populate_grid_frame s s' coords l).
Qed.

Lemma methods_frame_witness :
  (∀ s', make_step blinker = (Ok tt, s') →
     arrays (mem s') !! 0%nat = Some [[0; 1; 0]; [0; 1; 0]; [0; 1; 0]]) ∧
  (∀ n s', make_n_steps n blinker = (Ok tt, s') →
     arrays (mem s') !! 0%nat = Some [[0; 1; 0]; [0; 1; 0]; [0; 1; 0]]) ∧
  (∀ density res s', randomize density blinker = (res, s') →
     arrays (mem s') !! 0%nat = Some [[0; 1; 0]; [0; 1; 0]; [0; 1; 0]]) ∧
  (∀ coords s', 0%nat ≠ life_grid (self blinker) →
     populate_grid coords blinker = (Ok tt, s') →
     arrays (mem s') !! 0%nat = Some [[0; 1; 0]; [0; 1; 0]; [0; 1; 0]]).
Proof. apply (methods_frame blinker 0%nat); [apply blinker_valid | reflexivity]. Defined.

(** X3: a reference from [get_grid] is to the grid only until the next
    [make_step].  After the step the array it points to still holds the
    generation before, and a write through it succeeds without reaching the
    engine: the cells and the attributes of the engine are those the step
    left.  Across [populate_grid] the reference stays the engine's grid. *)
Theorem get_grid_stale_after_step (s : state) (r c v : Z) :
  valid s →
  0 ≤ r < rows (self s) → 0 ≤ c < cols (self s) → - 2 ^ 63 ≤ v < 2 ^ 63 →
  (∃ l s1 s2,
     (get_grid ≫= λ l, make_step;; mret l) s = (Ok l, s1) ∧
     arrays (mem s1) !! l = Some (grid s) ∧
     caller_writes l r c v s1 = (Ok tt, s2) ∧
     grid s2 = grid s1 ∧ self s2 = self s1) ∧
  (∀ coords, ∃ l s1,
     (get_grid ≫= λ l, populate_grid coords;; mret l) s = (Ok l, s1) ∧
     arrays (mem s1) !! l = Some (grid s1)).
Proof.
  intros Hvalid Hr Hc Hv. split.
  - destruct (make_step_next s Hvalid)
      as (s1 & Hstep & Hvalid1 & _ & _ & _ & _ & Hnew & Hold & _).
    destruct (valid_ref s Hvalid) as [a0 Ha0].
    assert (grid s = a0) as Hgrid by (unfold grid; by rewrite Ha0).
    assert (arrays (mem s1) !! life_grid (self s) = Some a0) as Ha1.
    { rewrite Hold by (by eexists). done. }
    destruct (setitem2_Ok _ _ _ r c v (valid_shape s Hvalid) Hr Hc)
      as (a' & Hset & _). rewrite Hgrid in Hset.
    exists (life_grid (self s)), s1. eexists. split; [|split; [|split; [|split]]].
    + erewrite M_bind_Ok by done. by rewrite (M_bind_Ok _ _ _ _ _ Hstep).
    + by rewrite Hgrid.
    + unfold caller_writes, in_mem.
      by rewrite (array_setitem2_Ok _ _ _ _ _ a0 a') by done.
    + unfold grid. cbn. rewrite lookup_insert_ne; [done|].
      intros Heq. rewrite <- Heq, Ha0 in Hnew. discriminate.
    + done.
  - intros coords.
    destruct (populate_grid_spec s coords (valid_ref s Hvalid) (valid_shape s Hvalid))
      as (a & Hpop & _).
    exists (life_grid (self s)). eexists. split.
    + erewrite M_bind_Ok by done. by rewrite (M_bind_Ok _ _ _ _ _ Hpop).
    + unfold grid. cbn. by rewrite lookup_insert_eq.
Qed.

Lemma get_grid_stale_after_step_witness :
  (∃ l s1 s2,
     (get_grid ≫= λ l, make_step;; mret l) blinker = (Ok l, s1) ∧
     arrays (mem s1) !! l = Some (grid blinker) ∧
     caller_writes l 1 1 5 s1 = (Ok tt, s2) ∧
     grid s2 = grid s1 ∧ self s2 = self s1) ∧
  (∀ coords, ∃ l s1,
     (get_grid ≫= λ l, populate_grid coords;; mret l) blinker = (Ok l, s1) ∧
     arrays (mem s1) !! l = Some (grid s1)).
Proof.
  apply (get_grid_stale_after_step blinker 1 1 5 blinker_valid); cbn; lia.
Defined.

(** ** Calls in sequence *)

Lemma repeat_step_add (j k : nat) (s : state) :
  repeat_step (j + k) s = (repeat_step j;; repeat_step k) s.
Proof.
  revert s. induction j as [|j IH]; intros s; [done|].
  cbn [Nat.add repeat_step]. unfold mbind, M_bind in *.
  destruct (make_step s) as [[[]|e] s1]; [apply IH | done].
Qed.

(** X4: for non-negative [a] and [b], [make_n_steps (a + b)] is
    [make_n_steps a] followed by [make_n_steps b], on every state, a raise
    included. *)
Theorem make_n_steps_add (s : state) (a b : Z) :
  0 ≤ a → 0 ≤ b →
  make_n_steps (a + b) s = (make_n_steps a;; make_n_steps b) s.
Proof.
  intros Ha Hb. rewrite make_n_steps_eq, Z2Nat.inj_add, repeat_step_add by done.
  unfold mbind, M_bind. rewrite (make_n_steps_eq a).
  destruct (repeat_step (Z.to_nat a) s) as [[[]|e] s1]; [|done].
  by rewrite make_n_steps_eq.
Qed.

Lemma make_n_steps_add_witness :
  make_n_steps (1 + 2) blinker = (make_n_steps 1;; make_n_steps 2) blinker.
Proof. apply (make_n_steps_add blinker 1 2); lia. Defined.

Lemma member_app (p : Z * Z) (S1 S2 : list (Z * Z)) :
  member p (S1 ++ S2) = member p S1 || member p S2.
Proof.
  induction S1 as [|q S1 IH]; [done|].
  cbn [app]. by rewrite !member_cons, IH, orb_assoc.
Qed.

(** X5: from a valid state, seeding with a list in two pieces, one call
    after the other, is seeding with the whole list. *)
Theorem populate_grid_app (s : state) (coords1 coords2 : list (Z * Z)) :
  valid s →
  populate_grid (coords1 ++ coords2) s =
    (populate_grid coords1;; populate_grid coords2) s.
Proof.
  intros Hvalid.
  destruct (populate_grid_spec s (coords1 ++ coords2)
              (valid_ref s Hvalid) (valid_shape s Hvalid)) as (a & -> & Ha & Hcells).
  destruct (populate_grid_spec s coords1 (valid_ref s Hvalid) (valid_shape s Hvalid))
    as (a1 & Hpop1 & Ha1 & Hcells1).
  rewrite (M_bind_Ok _ _ _ _ _ Hpop1).
  match goal with |- _ = populate_grid _ ?s1 =>
    destruct (populate_grid_spec s1 coords2) as (a2 & -> & Ha2 & Hcells2)
  end.
  { cbn. rewrite lookup_insert_eq. by eexists. }
  { by rewrite (grid_insert s (life_grid (self s)) a1). }
  cbn [self mem rows cols life_grid arrays random_state] in *.
  rewrite (grid_insert s (life_grid (self s)) a1) in Hcells2 by done.
  rewrite insert_insert_eq. do 4 f_equal.
  apply (ndarray_ext _ _ _ _ Ha Ha2). intros i j Hi Hj.
  rewrite (Hcells i j Hi Hj), (Hcells2 i j Hi Hj), (Hcells1 i j Hi Hj), member_app.
  by destruct (member (i, j) coords1), (member (i, j) coords2).
Qed.

Lemma populate_grid_app_witness :
  populate_grid ([(0, 0); (5, 5)] ++ [(1, 2)]) empty3x3 =
    (populate_grid [(0, 0); (5, 5)];; populate_grid [(1, 2)]) empty3x3.
Proof. apply (populate_grid_app empty3x3). apply empty3x3_valid. Defined.

(** ** Densities that are accepted *)

Lemma np_random_choice01_cells (r c : Z) (d : Q) (m : memory) :
  0 ≤ r → 0 ≤ c → (0 <= d <= 1)%Q →
  ∃ a rnd,
    np_random_choice01 (r, c) (1 - d)%Q d m =
      (Ok a, {| arrays := arrays m; random_state := rnd |}) ∧
    has_shape r c a ∧ binary a ∧
    ∀ i j, 0 ≤ i < r → 0 ≤ j < c →
      cell a (i, j) =
        Some (if Qle_bool (1 - d)
                   (random_state m (Z.to_nat i * Z.to_nat c + Z.to_nat j)%nat)
              then 1 else 0).
Proof.
  intros Hr Hc Hd. unfold np_random_choice01.
  assert (negb (Qle_bool 0 (1 - d)) || negb (Qle_bool 0 d) = false) as ->.
  { apply orb_false_iff. split; apply negb_false_iff, Qle_bool_iff; lra. }
  assert (negb (Qeq_bool (1 - d + d) 1) = false) as ->.
  { apply negb_false_iff, Qeq_bool_iff. ring. }
  destruct (Z.ltb_spec r 0); [lia|]. destruct (Z.ltb_spec c 0); [lia|]. cbn [orb].
  eexists _, _. split; [done|]. split; [split|split].
  - by rewrite length_fmap, length_seq.
  - apply Forall_fmap, Forall_forall. intros i _. cbn.
    by rewrite length_fmap, length_seq.
  - apply Forall_fmap, Forall_forall. intros i _. cbn.
    apply Forall_fmap, Forall_forall. intros j _. cbn. case_match; auto.
  - intros i j Hi Hj. apply cell_Some. split; [lia|]. split; [lia|].
    eexists. split.
    + rewrite list_lookup_fmap, lookup_seq_lt by lia. done.
    + rewrite list_lookup_fmap, lookup_seq_lt by lia. done.
Qed.

Lemma randomize_cells (s : state) (d : Q) :
  valid s → (0 <= d <= 1)%Q →
  ∃ s', randomize d s = (Ok tt, s') ∧ keeps_dimensions s s' ∧
    current_step (self s') = 0 ∧
    ∀ i j, 0 ≤ i < rows (self s) → 0 ≤ j < cols (self s) →
      cell (grid s') (i, j) =
        Some (if Qle_bool (1 - d)
                   (random_state (mem s)
                      (Z.to_nat i * Z.to_nat (cols (self s)) + Z.to_nat j)%nat)
              then 1 else 0).
Proof.
  intros Hvalid Hd.
  destruct (np_random_choice01_cells _ _ d (mem s)
              (valid_rows s Hvalid) (valid_cols s Hvalid) Hd)
    as (a & rnd & Hchoice & Ha & Hbin & Hcells).
  eexists. split.
  { unfold randomize. erewrite M_bind_Ok by done.
    erewrite M_bind_Ok by (unfold in_mem; by rewrite Hchoice).
    erewrite M_bind_Ok by (unfold in_mem; cbn [mem]; done).
    erewrite M_bind_Ok by done. done. }
  assert (∀ g rnd', grid {| self := {| rows := rows (self s); cols := cols (self s);
                                       life_grid := fresh (dom (arrays (mem s)));
                                       current_step := g |};
                            mem := {| arrays := <[fresh (dom (arrays (mem s))):=a]>
                                                  (arrays (mem s));
                                      random_state := rnd' |} |} = a) as Hgrid.
  { intros. unfold grid. cbn. by rewrite lookup_insert_eq. }
  cbn -[fresh]. rewrite Hgrid. split; [|done].
  split; [|done]. destruct Hvalid as [Hr Hc Href Hshape Hbin0].
  split; cbn -[fresh]; [done..| | |]; rewrite ?Hgrid; [|done..].
  rewrite lookup_insert_eq. by eexists.
Qed.

(** X6: on a valid state every density from 0 to 1, the ends included, is
    accepted: [randomize] succeeds and resets the counter.  When the samples
    of the generator lie in [0, 1), a density of 0 leaves every cell dead
    and a density of 1 leaves every cell alive. *)
Theorem randomize_accepts_density (s : state) :
  valid s → uniform (mem s) →
  (∀ density, (0 <= density <= 1)%Q →
     ∃ s', randomize density s = (Ok tt, s') ∧ keeps_dimensions s s' ∧
           current_step (self s') = 0) ∧
  (∃ s', randomize 0 s = (Ok tt, s') ∧
     ∀ i j, 0 ≤ i < rows (self s) → 0 ≤ j < cols (self s) →
       cell (grid s') (i, j) = Some 0) ∧
  (∃ s', randomize 1 s = (Ok tt, s') ∧
     ∀ i j, 0 ≤ i < rows (self s) → 0 ≤ j < cols (self s) →
       cell (grid s') (i, j) = Some 1).
Proof.
  intros Hvalid Huniform. split; [|split].
  - intros d Hd. destruct (randomize_cells s d Hvalid Hd) as (s' & ? & ? & ? & _).
    by exists s'.
  - destruct (randomize_cells s 0 Hvalid) as (s' & Hrand & _ & _ & Hcells); [lra|].
    exists s'. split; [done|]. intros i j Hi Hj. rewrite (Hcells i j Hi Hj).
    case_match eqn:Hle; [|done]. apply Qle_bool_iff in Hle.
    match type of Hle with (_ <= random_state _ ?k)%Q => specialize (Huniform k) end. lra.
  - destruct (randomize_cells s 1 Hvalid) as (s' & Hrand & _ & _ & Hcells); [lra|].
    exists s'. split; [done|]. intros i j Hi Hj. rewrite (Hcells i j Hi Hj).
    case_match eqn:Hle; [done|]. apply not_true_iff_false in Hle. exfalso. apply Hle.
    apply Qle_bool_iff.
    match goal with |- (_ <= random_state _ ?k)%Q => specialize (Huniform k) end. lra.
Qed.

Lemma blinker_uniform : uniform (mem blinker).
Proof. intros k. cbn. lra. Defined.

Lemma randomize_accepts_density_witness :
  (∀ density, (0 <= density <= 1)%Q →
     ∃ s', randomize density blinker = (Ok tt, s') ∧ keeps_dimensions blinker s' ∧
           current_step (self s') = 0) ∧
  (∃ s', randomize 0 blinker = (Ok tt, s') ∧
     ∀ i j, 0 ≤ i < 3 → 0 ≤ j < 3 → cell (grid s') (i, j) = Some 0) ∧
  (∃ s', randomize 1 blinker = (Ok tt, s') ∧
     ∀ i j, 0 ≤ i < 3 → 0 ≤ j < 3 → cell (grid s') (i, j) = Some 1).
Proof. apply (randomize_accepts_density blinker blinker_valid blinker_uniform). Defined.

(** ** Too few cells to live *)

Lemma NoDup_surrounding (i j : Z) : NoDup (surrounding i j).
Proof.
  unfold surrounding.
  repeat (apply NoDup_cons; split;
    [ rewrite ?elem_of_cons, elem_of_nil; intros H;
      repeat (destruct H as [H|H]; [injection H; intros; lia|]); done |]).
  apply NoDup_nil_2.
Qed.

Lemma not_in_surrounding (i j : Z) : (i, j) ∉ surrounding i j.
Proof.
  unfold surrounding. rewrite !elem_of_cons, elem_of_nil. intros H.
  repeat (destruct H as [H|H]; [injection H; intros; lia|]). done.
Qed.

(** The alive neighbors of a cell are at most as many as the alive cells
    there are besides the cell. *)
Lemma alive_neighbors_bound (a : ndarray) (r c i j : Z) (others : list (Z * Z)) :
  (∀ x, alive a x = true → x = (i, j) ∨ x ∈ others) →
  0 ≤ alive_neighbors a r c i j ≤ Z.of_nat (length others).
Proof.
  intros Honly. unfold alive_neighbors, counted_positions. split; [lia|].
  apply inj_le, submseteq_length, NoDup_submseteq.
  - apply NoDup_ListNoDup, List.NoDup_filter, List.NoDup_filter, NoDup_ListNoDup,
      NoDup_surrounding.
  - intros x [[Hx _]%List.filter_In Halive]%list_elem_of_In%List.filter_In.
    destruct (Honly x Halive) as [->|Hin]; [|done].
    by apply list_elem_of_In, not_in_surrounding in Hx.
Qed.

(** X7: a grid with at most two alive cells is dead after one step,
    whatever its size and wherever the cells are: an alive cell has at most
    one alive neighbor and a dead cell at most two. *)
Theorem sparse_grid_dies (s : state) (p q : Z * Z) :
  valid s →
  (∀ x, alive (grid s) x = true → x = p ∨ x = q) →
  ∃ s', make_step s = (Ok tt, s') ∧
    ∀ i j, 0 ≤ i < rows (self s) → 0 ≤ j < cols (self s) →
      cell (grid s') (i, j) = Some 0.
Proof.
  intros Hvalid Honly.
  destruct (make_step_next s Hvalid) as (s' & Hstep & _ & _ & _ & _ & _ & _ & _ & Hcells).
  exists s'. split; [done|]. intros i j Hi Hj. rewrite (Hcells i j Hi Hj). f_equal.
  set (n := alive_neighbors (grid s) (rows (self s)) (cols (self s)) i j).
  destruct (alive (grid s) (i, j)) eqn:Hij.
  - assert (0 ≤ n ≤ 1) as Hn.
    { destruct (decide ((i, j) = p)) as [Hp|Hp].
      - apply (alive_neighbors_bound _ _ _ _ _ [q]). intros x Hx.
        destruct (Honly x Hx) as [->| ->]; [by left | right; apply elem_of_cons; by left].
      - apply (alive_neighbors_bound _ _ _ _ _ [p]). intros x Hx.
        destruct (Honly x Hx) as [->| ->]; [right; apply elem_of_cons; by left|].
        destruct (Honly _ Hij) as [?| ->]; [done | by left]. }
    unfold conway. destruct (Z.eqb_spec n 2); [lia|]. destruct (Z.eqb_spec n 3); [lia|done].
  - assert (0 ≤ n ≤ 2) as Hn.
    { apply (alive_neighbors_bound _ _ _ _ _ [p; q]). intros x Hx. right.
      rewrite !elem_of_cons. destruct (Honly x Hx); auto. }
    unfold conway. destruct (Z.eqb_spec n 3); [lia|done].
Qed.

Lemma alive_only_check (r c : Z) (a : ndarray) (p q : Z * Z) :
  has_shape r c a →
  forallb (λ i, forallb (λ j,
    negb (alive a (i, j)) || bool_decide ((i, j) = p) || bool_decide ((i, j) = q))
    (range 0 c)) (range 0 r) = true →
  ∀ x, alive a x = true → x = p ∨ x = q.
Proof.
  intros Ha Hcheck [i j] Halive.
  assert (inside r c (i, j) = true) as [Hi Hj]%inside_spec.
  { apply (cell_inside r c a); [done|]. apply bool_decide_eq_true in Halive. by eexists. }
  rewrite forallb_forall in Hcheck.
  specialize (Hcheck i ltac:(apply list_elem_of_In, elem_of_seqZ; lia)).
  rewrite forallb_forall in Hcheck.
  specialize (Hcheck j ltac:(apply list_elem_of_In, elem_of_seqZ; lia)).
  rewrite Halive in Hcheck. cbn in Hcheck.
  apply orb_true_iff in Hcheck as [H|H]; apply bool_decide_eq_true in H; auto.
Qed.

Lemma pair3x3_valid : valid pair3x3.
Proof. valid_by_computation. Defined.

Lemma sparse_grid_dies_witness :
  ∃ s', make_step pair3x3 = (Ok tt, s') ∧
    ∀ i j, 0 ≤ i < 3 → 0 ≤ j < 3 → cell (grid s') (i, j) = Some 0.
Proof.
  apply (sparse_grid_dies pair3x3 (0, 0) (0, 1) pair3x3_valid).
  apply (alive_only_check 3 3); [apply pair3x3_valid | reflexivity].
Defined.

(** ** The bounded grid and the unbounded plane *)

Lemma shows_alive_on_grid (r c : Z) (a : ndarray) (S : list (Z * Z)) :
  shows r c a S → (∀ p, p ∈ S → inside r c p = true) →
  ∀ p, alive a p = member p S.
Proof.
  intros [Ha Hcells] HS [i j].
  destruct (inside r c (i, j)) eqn:Hin.
  - apply inside_spec in Hin as [Hi Hj].
    rewrite (alive_cell _ _ _ (Hcells i j Hi Hj)). by case_match.
  - transitivity false.
    + apply bool_decide_eq_false. intros Hcell.
      assert (inside r c (i, j) = true) by (apply (cell_inside r c a); [done|by eexists]).
      congruence.
    + symmetry. apply bool_decide_eq_false. intros Hp%HS. congruence.
Qed.

Lemma shows_alive_neighbors_on_grid (r c : Z) (a : ndarray) (S : list (Z * Z)) (i j : Z) :
  shows r c a S → (∀ p, p ∈ S → inside r c p = true) →
  alive_neighbors a r c i j = live_around S i j.
Proof.
  intros Hshows HS. unfold alive_neighbors, counted_positions, live_around.
  rewrite filter_filter_andb. do 2 f_equal. apply List.filter_ext. intros p.
  rewrite (shows_alive_on_grid r c a S) by done.
  destruct (member p S) eqn:Hin; [|apply andb_false_r].
  apply bool_decide_eq_true in Hin. by rewrite (HS p Hin).
Qed.

(** A step on the grid is a step on the plane, cut to the grid. *)
Lemma make_step_plane (s : state) (S S' : list (Z * Z)) :
  valid s → shows (rows (self s)) (cols (self s)) (grid s) S →
  (∀ p, p ∈ S → inside (rows (self s)) (cols (self s)) p = true) →
  plane_next S S' →
  ∃ s', make_step s = (Ok tt, s') ∧ keeps_dimensions s s' ∧
    current_step (self s') = current_step (self s) + 1 ∧
    shows (rows (self s)) (cols (self s)) (grid s') S'.
Proof.
  intros Hvalid Hshows HS Hnext.
  destruct (make_step_next s Hvalid)
    as (s' & Hstep & Hvalid' & Hrows & Hcols & Hcount & _ & _ & _ & Hcells).
  exists s'. split; [done|]. split; [by split|]. split; [done|]. split.
  - rewrite <- Hrows, <- Hcols. apply Hvalid'.
  - intros i j Hi Hj. rewrite (Hcells i j Hi Hj).
    rewrite (shows_alive_on_grid _ _ _ S), (shows_alive_neighbors_on_grid _ _ _ S) by done.
    by rewrite Hnext.
Qed.

(** X8: the bounded grid is the unbounded plane with everything beyond the
    edges dead.  When the alive cells of a valid grid are exactly those of a
    list [S] of positions of the grid, and [S'] lists the cells alive on the
    plane one generation after [S], then after [make_step] a cell of the
    grid is alive exactly when its position is in [S']. *)
Theorem make_step_cuts_plane (s : state) (S S' : list (Z * Z)) :
  valid s → shows (rows (self s)) (cols (self s)) (grid s) S →
  (∀ p, p ∈ S → inside (rows (self s)) (cols (self s)) p = true) →
  plane_next S S' →
  ∃ s', make_step s = (Ok tt, s') ∧
    shows (rows (self s)) (cols (self s)) (grid s') S'.
Proof.
  intros Hvalid Hshows HS Hnext.
  destruct (make_step_plane s S S' Hvalid Hshows HS Hnext) as (s' & ? & _ & _ & ?).
  by exists s'.
Qed.

Lemma shows_check_spec (r c : Z) (a : ndarray) (S : list (Z * Z)) :
  has_shape r c a → shows_check r c a S = true → shows r c a S.
Proof.
  intros Ha Hcheck. split; [done|]. intros i j Hi Hj.
  unfold shows_check in Hcheck. rewrite forallb_forall in Hcheck. specialize (Hcheck i).
  rewrite forallb_forall in Hcheck.
  apply (proj1 (bool_decide_eq_true _)), Hcheck.
  - apply list_elem_of_In, elem_of_seqZ. lia.
  - apply list_elem_of_In, elem_of_seqZ. lia.
Qed.

Lemma within_inside (r c hi : Z) (S : list (Z * Z)) :
  within 0 hi S = true → hi < r → hi < c →
  ∀ p, p ∈ S → inside r c p = true.
Proof.
  intros HS Hr Hc [i j] Hp. apply (within_spec 0 hi) in Hp; [|done]. cbn in Hp.
  apply inside_spec. lia.
Qed.

Lemma blinker_valid_shows : shows 3 3 (grid blinker) [(0, 1); (1, 1); (2, 1)].
Proof. apply shows_check_spec; [apply blinker_valid | reflexivity]. Qed.

Lemma make_step_cuts_plane_witness :
  ∃ s', make_step blinker = (Ok tt, s') ∧
    shows 3 3 (grid s') [(1, 0); (1, 1); (1, 2)].
Proof.
  apply (make_step_cuts_plane blinker [(0, 1); (1, 1); (2, 1)] [(1, 0); (1, 1); (1, 2)]
           blinker_valid blinker_valid_shows).
  - by apply (within_inside 3 3 2).
  - intros i j. by apply (evolves_spec 0 2).
Defined.

(** ** Patterns anywhere on the grid *)

Lemma member_translate (a b i j : Z) (S : list (Z * Z)) :
  member (i, j) (translate a b S) = member (i - a, j - b) S.
Proof.
  unfold member, translate. apply bool_decide_ext. rewrite list_elem_of_fmap. split.
  - intros ([x y] & [= -> ->] & Hin). cbn.
    by replace (x + a - a, y + b - b) with (x, y) by (f_equal; lia).
  - intros Hin. exists (i - a, j - b). split; [cbn; f_equal; lia | done].
Qed.

Lemma live_around_translate (a b i j : Z) (S : list (Z * Z)) :
  live_around (translate a b S) i j = live_around S (i - a) (j - b).
Proof.
  unfold live_around, surrounding. f_equal.
  rewrite !length_filter_cons, !member_translate.
  replace (i - a - 1) with (i - 1 - a) by lia.
  replace (i - a + 1) with (i + 1 - a) by lia.
  replace (j - b - 1) with (j - 1 - b) by lia.
  replace (j - b + 1) with (j + 1 - b) by lia.
  done.
Qed.

(** The rule does not depend on where on the plane a pattern lies. *)
Lemma plane_next_translate (a b : Z) (S S' : list (Z * Z)) :
  plane_next S S' → plane_next (translate a b S) (translate a b S').
Proof.
  intros Hnext i j. rewrite !member_translate, live_around_translate. apply Hnext.
Qed.

Lemma translate_translate (a b a' b' : Z) (S : list (Z * Z)) :
  translate a b (translate a' b' S) = translate (a' + a) (b' + b) S.
Proof.
  unfold translate. rewrite <- list_fmap_compose. apply list_fmap_ext.
  intros _ [x y] _. cbn. f_equal; lia.
Qed.

Lemma translate_inside (r c hi a b : Z) (S : list (Z * Z)) :
  within 0 hi S = true → 0 ≤ a → a + hi < r → 0 ≤ b → b + hi < c →
  ∀ p, p ∈ translate a b S → inside r c p = true.
Proof.
  intros HS Ha Har Hb Hbc p ([x y] & -> & Hin)%list_elem_of_fmap.
  apply (within_spec 0 hi) in Hin; [|done]. cbn in Hin |- *.
  apply inside_spec. lia.
Qed.

(** A pattern that the plane leaves as it is stays on the grid for any
    number of steps. *)
Lemma repeat_step_still (k : nat) (s : state) (S : list (Z * Z)) :
  valid s → shows (rows (self s)) (cols (self s)) (grid s) S →
  (∀ p, p ∈ S → inside (rows (self s)) (cols (self s)) p = true) →
  plane_next S S →
  ∃ s', repeat_step k s = (Ok tt, s') ∧ grid s' = grid s ∧
    current_step (self s') = current_step (self s) + Z.of_nat k.
Proof.
  intros Hvalid Hshows HS Hnext. revert s Hvalid Hshows HS.
  induction k as [|k IH]; intros s Hvalid Hshows HS.
  - exists s. split; [done|]. split; [done|]. cbn. lia.
  - destruct (make_step_plane s S S Hvalid Hshows HS Hnext)
      as (s1 & Hstep & (Hvalid1 & Hrows & Hcols) & Hcount & Hshows1).
    assert (grid s1 = grid s) as Hgrid.
    { apply (ndarray_ext (rows (self s)) (cols (self s))); [apply Hshows1|apply Hshows|].
      intros i j Hi Hj. destruct Hshows as [_ Hc], Hshows1 as [_ Hc1].
      by rewrite Hc, Hc1. }
    destruct (IH s1) as (s' & Hrepeat & Hgrid' & Hcount'); [done|by rewrite Hrows, Hcols..|].
    exists s'. cbn [repeat_step]. rewrite (M_bind_Ok _ _ _ _ _ Hstep).
    split; [done|]. split; [congruence|lia].
Qed.

Lemma block_plane : plane_next block block.
Proof. intros i j. by apply (evolves_spec 0 1). Qed.

(** X9: the 2 x 2 block is a still life wherever it lies on the grid, along
    an edge or in a corner included, on a grid of any size: whatever number of
    steps [make_n_steps] is asked for, the cells afterwards are the cells
    before. *)
Theorem block_still_life (s : state) (a b n : Z) :
  valid s →
  0 ≤ a → a + 1 < rows (self s) → 0 ≤ b → b + 1 < cols (self s) →
  shows (rows (self s)) (cols (self s)) (grid s) (translate a b block) →
  ∃ s', make_n_steps n s = (Ok tt, s') ∧ grid s' = grid s ∧
    current_step (self s') = current_step (self s) + Z.max 0 n.
Proof.
  intros Hvalid Ha Har Hb Hbc Hshows. rewrite make_n_steps_eq.
  destruct (repeat_step_still (Z.to_nat n) s (translate a b block) Hvalid Hshows)
    as (s' & Hrepeat & Hgrid & Hcount).
  - by apply (translate_inside _ _ 1).
  - apply plane_next_translate, block_plane.
  - exists s'. split; [done|]. split; [done|]. lia.
Qed.

Lemma block4x4_valid : valid block4x4.
Proof. valid_by_computation. Defined.

Lemma block_still_life_witness :
  ∃ s', make_n_steps 5 block4x4 = (Ok tt, s') ∧ grid s' = grid block4x4 ∧
    current_step (self s') = current_step (self block4x4) + Z.max 0 5.
Proof.
  apply (block_still_life block4x4 2 2 5 block4x4_valid); [cbn; lia..|].
  apply shows_check_spec; [apply block4x4_valid | reflexivity].
Defined.

Lemma glider_plane :
  plane_next glider glider1 ∧ plane_next glider1 glider2 ∧
  plane_next glider2 glider3 ∧ plane_next glider3 (translate 1 1 glider).
Proof. repeat split; intros i j; by apply (evolves_spec 0 3). Qed.

(** One period of the glider, from anywhere it has room. *)
Lemma glider_period (s : state) (a b : Z) :
  valid s → 0 ≤ a → a + 3 < rows (self s) → 0 ≤ b → b + 3 < cols (self s) →
  shows (rows (self s)) (cols (self s)) (grid s) (translate a b glider) →
  ∃ s', repeat_step 4 s = (Ok tt, s') ∧ keeps_dimensions s s' ∧
    current_step (self s') = current_step (self s) + 4 ∧
    shows (rows (self s)) (cols (self s)) (grid s') (translate (a + 1) (b + 1) glider).
Proof.
  intros Hvalid Ha Har Hb Hbc Hshows.
  destruct glider_plane as (H01 & H12 & H23 & H34).
  destruct (make_step_plane s _ (translate a b glider1) Hvalid Hshows)
    as (s1 & Hstep1 & (Hvalid1 & Hrows1 & Hcols1) & Hcount1 & Hshows1);
    [by apply (translate_inside _ _ 3) | by apply plane_next_translate |].
  rewrite <- Hrows1, <- Hcols1 in Hshows1.
  destruct (make_step_plane s1 _ (translate a b glider2) Hvalid1 Hshows1)
    as (s2 & Hstep2 & (Hvalid2 & Hrows2 & Hcols2) & Hcount2 & Hshows2);
    [apply (translate_inside _ _ 3); (done || lia) | by apply plane_next_translate |].
  rewrite <- Hrows2, <- Hcols2 in Hshows2.
  destruct (make_step_plane s2 _ (translate a b glider3) Hvalid2 Hshows2)
    as (s3 & Hstep3 & (Hvalid3 & Hrows3 & Hcols3) & Hcount3 & Hshows3);
    [apply (translate_inside _ _ 3); (done || lia) | by apply plane_next_translate |].
  rewrite <- Hrows3, <- Hcols3 in Hshows3.
  destruct (make_step_plane s3 _ (translate a b (translate 1 1 glider)) Hvalid3 Hshows3)
    as (s4 & Hstep4 & (Hvalid4 & Hrows4 & Hcols4) & Hcount4 & Hshows4);
    [apply (translate_inside _ _ 3); (done || lia) | by apply plane_next_translate |].
  rewrite translate_translate in Hshows4.
  replace (1 + a) with (a + 1) in Hshows4 by lia.
  replace (1 + b) with (b + 1) in Hshows4 by lia.
  assert (rows (self s3) = rows (self s)) as Hrows by congruence.
  assert (cols (self s3) = cols (self s)) as Hcols by congruence.
  rewrite Hrows, Hcols in Hshows4.
  exists s4. cbn [repeat_step].
  rewrite (M_bind_Ok _ _ _ _ _ Hstep1), (M_bind_Ok _ _ _ _ _ Hstep2),
    (M_bind_Ok _ _ _ _ _ Hstep3), (M_bind_Ok _ _ _ _ _ Hstep4).
  split; [done|]. split; [split; [done|split; congruence]|]. split; [lia|done].
Qed.

Lemma glider_periods (k : nat) (s : state) (a b : Z) :
  valid s →
  0 ≤ a → a + Z.of_nat k + 2 < rows (self s) →
  0 ≤ b → b + Z.of_nat k + 2 < cols (self s) →
  shows (rows (self s)) (cols (self s)) (grid s) (translate a b glider) →
  ∃ s', repeat_step (4 * k) s = (Ok tt, s') ∧ keeps_dimensions s s' ∧
    current_step (self s') = current_step (self s) + 4 * Z.of_nat k ∧
    shows (rows (self s)) (cols (self s)) (grid s')
      (translate (a + Z.of_nat k) (b + Z.of_nat k) glider).
Proof.
  revert s a b. induction k as [|k IH]; intros s a b Hvalid Ha Har Hb Hbc Hshows.
  - exists s. split; [done|]. split; [done|]. split; [lia|].
    by rewrite !Z.add_0_r.
  - destruct (glider_period s a b Hvalid) as
      (s1 & Hfour & (Hvalid1 & Hrows1 & Hcols1) & Hcount1 & Hshows1); [lia..|done|].
    rewrite <- Hrows1, <- Hcols1 in Hshows1.
    destruct (IH s1 (a + 1) (b + 1) Hvalid1) as
      (s' & Hrest & (Hvalid' & Hrows' & Hcols') & Hcount' & Hshows'); [lia..|done|].
    exists s'. replace (4 * S k)%nat with (4 + 4 * k)%nat by lia.
    rewrite repeat_step_add, (M_bind_Ok _ _ _ _ _ Hfour).
    split; [done|]. split; [split; [done|split; congruence]|]. split; [lia|].
    rewrite Hrows1, Hcols1 in Hshows'.
    replace (a + Z.of_nat (S k)) with (a + 1 + Z.of_nat k) by lia.
    by replace (b + Z.of_nat (S k)) with (b + 1 + Z.of_nat k) by lia.
Qed.

(** X10: the glider travels.  From wherever it lies on a grid, [4 * k]
    steps move it by [(+k, +k)] and leave nothing else alive, as long as
    the place it arrives at is on the grid: the rows of the five cells end
    at [a + k + 2] and the columns at [b + k + 2]. *)
Theorem glider_travels (s : state) (a b k : Z) :
  valid s → 0 ≤ k →
  0 ≤ a → a + k + 2 < rows (self s) →
  0 ≤ b → b + k + 2 < cols (self s) →
  shows (rows (self s)) (cols (self s)) (grid s) (translate a b glider) →
  ∃ s', make_n_steps (4 * k) s = (Ok tt, s') ∧
    current_step (self s') = current_step (self s) + 4 * k ∧
    shows (rows (self s)) (cols (self s)) (grid s') (translate (a + k) (b + k) glider).
Proof.
  intros Hvalid Hk Ha Har Hb Hbc Hshows. rewrite make_n_steps_eq.
  replace (Z.to_nat (4 * k)) with (4 * Z.to_nat k)%nat by lia.
  destruct (glider_periods (Z.to_nat k) s a b Hvalid) as (s' & Hsteps & _ & Hcount & Hshows');
    [lia..|done|].
  exists s'. split; [done|]. split; [lia|]. by rewrite Z2Nat.id in Hshows'.
Qed.

Lemma glider6x6_valid : valid glider6x6.
Proof. valid_by_computation. Defined.

Lemma glider_travels_witness :
  ∃ s', make_n_steps (4 * 3) glider6x6 = (Ok tt, s') ∧
    current_step (self s') = current_step (self glider6x6) + 4 * 3 ∧
    shows 6 6 (grid s') (translate (0 + 3) (0 + 3) glider).
Proof.
  apply (glider_travels glider6x6 0 0 3 glider6x6_valid); [cbn; lia..|].
  apply shows_check_spec; [apply glider6x6_valid | reflexivity].
Defined.

(** ** Two engines in one memory *)

Lemma valid_other_memory (s : state) (m : memory) :
  valid s →
  arrays m !! life_grid (self s) = arrays (mem s) !! life_grid (self s) →
  valid {| self := self s; mem := m |} ∧ grid {| self := self s; mem := m |} = grid s.
Proof.
  intros [Hr Hc Href Hshape Hbin] Hsame.
  assert (grid {| self := self s; mem := m |} = grid s) as Hgrid.
  { unfold grid. cbn. by rewrite Hsame. }
  split; [|done]. split; cbn [self mem]; rewrite ?Hgrid; try done. by rewrite Hsame.
Qed.

(** X11: engines do not share cells.  A second engine that the constructor
    returns in the memory of a valid one has an array of its own, and seeding
    and stepping the second leaves the first valid with the cells it had. *)
Theorem engines_independent (s : state) (r c n : Z) (coords : list (Z * Z))
    (g2 : GameOfLife) (m2 : memory) :
  valid s → __init__ r c (mem s) = (Ok g2, m2) →
  life_grid g2 ≠ life_grid (self s) ∧
  ∃ s2,
    (populate_grid coords;; make_n_steps n) (constructed g2 m2) = (Ok tt, s2) ∧
    valid s2 ∧
    valid {| self := self s; mem := mem s2 |} ∧
    grid {| self := self s; mem := mem s2 |} = grid s.
Proof.
  intros Hvalid Hinit0.
  assert (0 ≤ r ∧ 0 ≤ c) as [Hr Hc].
  { destruct (Z.lt_ge_cases r 0) as [Hr|Hr].
    { rewrite init_Raise in Hinit0 by lia. discriminate. }
    destruct (Z.lt_ge_cases c 0) as [Hc|Hc]; [|lia].
    rewrite init_Raise in Hinit0 by lia. discriminate. }
  destruct (init_Ok r c (mem s) Hr Hc) as (a & Hinit & _).
  destruct (init_valid r c (mem s) Hr Hc)
    as (g & m & Hinit2 & _ & _ & _ & Hvalid2 & Hframe2 & _).
  rewrite Hinit0 in Hinit2. injection Hinit2 as <- <-.
  assert (life_grid g2 ≠ life_grid (self s)) as Hne.
  { rewrite Hinit in Hinit0. injection Hinit0 as <- _. cbn.
    apply fresh_array, Hvalid. }
  destruct (populate_grid_next (constructed g2 m2) coords Hvalid2)
    as (s3 & Hpop & (Hvalid3 & _) & _).
  destruct (repeat_step_next (Z.to_nat n) s3 Hvalid3)
    as (s4 & Hsteps & (Hvalid4 & _) & _ & Hframe4).
  split; [done|]. exists s4. split.
  { rewrite (M_bind_Ok _ _ _ _ _ Hpop). by rewrite make_n_steps_eq. }
  split; [done|]. apply valid_other_memory; [done|].
  pose proof (valid_ref s Hvalid) as Href.
  assert (arrays (mem s3) !! life_grid (self s) = arrays (mem s) !! life_grid (self s))
    as Hsame3.
  { rewrite (populate_grid_frame (constructed g2 m2) s3 coords) by done.
    cbn. by apply Hframe2. }
  rewrite Hframe4 by (by rewrite Hsame3). done.
Qed.

Lemma engines_independent_witness :
  ∃ g2 m2,
    __init__ 2 2 (mem blinker) = (Ok g2, m2) ∧
    life_grid g2 ≠ life_grid (self blinker) ∧
    ∃ s2,
      (populate_grid [(0, 0); (0, 1); (1, 0)];; make_n_steps 3) (constructed g2 m2)
        = (Ok tt, s2) ∧
      valid s2 ∧
      valid {| self := self blinker; mem := mem s2 |} ∧
      grid {| self := self blinker; mem := mem s2 |} = grid blinker.
Proof.
  exists {| rows := 2; cols := 2; life_grid := 1%nat; current_step := 0 |},
    {| arrays := <[1%nat := [[0; 0]; [0; 0]]]> (arrays (mem blinker));
       random_state := random_state (mem blinker) |}.
  split; [reflexivity|].
  apply (engines_independent blinker 2 2 3 [(0, 0); (0, 1); (1, 0)] _ _ blinker_valid).
  reflexivity.
Defined.

(** * The methods that draw *)

Lemma UI_bind_Returns {A B} (m : UI A) (f : A → UI B) (u u' : ui) (a : A) :
  m u = (Returns a, u') → (m ≫= f) u = f a u'.
Proof. intros Hm. unfold mbind, UI_bind. by rewrite Hm. Qed.

Lemma UI_bind_Raises {A B} (m : UI A) (f : A → UI B) (u u' : ui) (e : error) :
  m u = (Raises e, u') → (m ≫= f) u = (Raises e, u').
Proof. intros Hm. unfold mbind, UI_bind. by rewrite Hm. Qed.

(** Run the calls at the head of a drawing method that return at once. *)
Ltac ui_steps :=
  cbn [calls engine drawing objects fig ax im self rows cols current_step];
  repeat (erewrite UI_bind_Returns by reflexivity;
          cbn [calls engine drawing objects fig ax im self rows cols current_step]).

Lemma life_grid_data_spec (g : GameOfLife) (m : memory) (d : attributes)
    (cs : list call) (o : nat) :
  life_grid_data {| engine := {| self := g; mem := m |}; drawing := d;
                    calls := cs; objects := o |} =
    (Returns (grid {| self := g; mem := m |}),
     {| engine := {| self := g; mem := m |}; drawing := d; calls := cs; objects := o |}).
Proof. reflexivity. Qed.

Lemma setup_axes_spec (a : handle) (g : GameOfLife) (m : memory) (d : attributes)
    (cs : list call) (o : nat) :
  _setup_axes a {| engine := {| self := g; mem := m |}; drawing := d;
                   calls := cs; objects := o |} =
    (Returns tt,
     {| engine := {| self := g; mem := m |};
        drawing := {| fig := fig d; ax := ax d; im := Some o |};
        calls := cs ++ setup_calls a o (grid {| self := g; mem := m |}) (cols g) (rows g);
        objects := S o |}).
Proof.
  unfold _setup_axes. rewrite (UI_bind_Returns _ _ _ _ _ (life_grid_data_spec _ _ _ _ _)).
  unfold setup_calls. ui_steps. unfold emit. cbn [calls engine drawing objects].
  by rewrite <- !app_assoc.
Qed.

(** One frame, whatever follows it. *)
Lemma draw_frame_spec (h a f : handle) (delay : Q) (rest : UI unit)
    (g : GameOfLife) (m : memory) (d : attributes) (cs : list call) (o : nat) :
  im d = Some h →
  (self_im_set_data;;
   me ← in_engine get_self;
   emit (ax_set_title a (current_step me));;
   emit (canvas_draw f);;
   emit (plt_pause delay);;
   rest)
    {| engine := {| self := g; mem := m |}; drawing := d; calls := cs; objects := o |} =
  rest {| engine := {| self := g; mem := m |}; drawing := d;
          calls := cs ++ frame_calls h a f delay {| self := g; mem := m |};
          objects := o |}.
Proof.
  intros Him.
  assert (self_im_set_data
            {| engine := {| self := g; mem := m |}; drawing := d; calls := cs; objects := o |} =
          (Returns tt,
           {| engine := {| self := g; mem := m |}; drawing := d;
              calls := cs ++ [im_set_data h (grid {| self := g; mem := m |})];
              objects := o |})) as Hset.
  { unfold self_im_set_data. erewrite UI_bind_Returns by done. cbn [drawing].
    rewrite Him. by rewrite (UI_bind_Returns _ _ _ _ _ (life_grid_data_spec _ _ _ _ _)). }
  rewrite (UI_bind_Returns _ _ _ _ _ Hset).
  unfold frame_calls. ui_steps. by rewrite <- !app_assoc.
Qed.

Lemma generation_S (k : nat) (s s1 : state) :
  make_step s = (Ok tt, s1) → generation (S k) s = generation k s1.
Proof.
  intros Hstep. unfold generation. cbn [repeat_step].
  by rewrite (M_bind_Ok _ _ _ _ _ Hstep).
Qed.

Lemma in_engine_make_step (s s1 : state) (d : attributes) (cs : list call) (o : nat) :
  make_step s = (Ok tt, s1) →
  in_engine make_step {| engine := s; drawing := d; calls := cs; objects := o |} =
    (Returns tt, {| engine := s1; drawing := d; calls := cs; objects := o |}).
Proof. intros Hstep. unfold in_engine. cbn [engine]. by rewrite Hstep. Qed.

(** The loop of [animate] from frame [k] on, with [n] frames to go. *)
Lemma animate_loop (steps : Z) (delay : Q) (f a h : handle) (n : nat) :
  ∀ (k : Z) (s : state) (d : attributes) (cs : list call) (o : nat),
  valid s → im d = Some h → ((0 < n)%nat → k + Z.of_nat n = steps) →
  for_each_ui (seqZ k (Z.of_nat n)) (λ frame,
      self_im_set_data;;
      me ← in_engine get_self;
      emit (ax_set_title a (current_step me));;
      emit (canvas_draw f);;
      emit (plt_pause delay);;
      if frame <? steps - 1 then in_engine make_step else mret tt)
    {| engine := s; drawing := d; calls := cs; objects := o |} =
  (Returns tt,
   {| engine := generation (n - 1) s; drawing := d;
      calls := cs ++ concat ((λ j, frame_calls h a f delay (generation j s)) <$> seq 0 n);
      objects := o |}).
Proof.
  induction n as [|n IH]; intros k s d cs o Hvalid Him Hk.
  - cbn. by rewrite app_nil_r.
  - specialize (Hk ltac:(lia)). rewrite seqZ_cons by lia.
    replace (Z.pred (Z.of_nat (S n))) with (Z.of_nat n) by lia.
    cbn [for_each_ui]. replace (S n - 1)%nat with n by lia.
    destruct (make_step_next s Hvalid) as (s1 & Hstep & Hvalid1 & _).
    destruct s as [g m].
    destruct (Z.ltb_spec k (steps - 1)) as [Hlt|Hge].
    + erewrite UI_bind_Returns; cycle 1.
      { rewrite (draw_frame_spec h a f delay _ g m d cs o Him).
        by apply in_engine_make_step. }
      rewrite (IH (Z.succ k) s1) by (done || lia).
      assert (generation n {| self := g; mem := m |} = generation (n - 1) s1) as ->.
      { destruct n as [|n]; [lia|]. replace (S n - 1)%nat with n by lia.
        by apply generation_S. }
      do 2 f_equal.
      rewrite <- app_assoc. f_equal. cbn [seq fmap list_fmap concat]. f_equal.
      rewrite <- fmap_S_seq, <- list_fmap_compose. f_equal.
      apply list_fmap_ext. intros _ j _. cbn. by rewrite (generation_S j _ s1 Hstep).
    + erewrite UI_bind_Returns; cycle 1.
      { rewrite (draw_frame_spec h a f delay _ g m d cs o Him). done. }
      assert (n = 0%nat) as -> by lia.
      rewrite (IH (Z.succ k)) by (done || lia).
      cbn. by rewrite !app_nil_r.
Qed.

Lemma animate_spec (g : GameOfLife) (m : memory) (d : attributes) (cs : list call)
    (o : nat) (steps : Z) (delay : Q) :
  valid {| self := g; mem := m |} →
  animate steps delay
    {| engine := {| self := g; mem := m |}; drawing := d; calls := cs; objects := o |} =
  (Returns tt,
   {| engine := generation (Z.to_nat steps - 1) {| self := g; mem := m |};
      drawing := {| fig := fig d; ax := ax d; im := Some (S (S o)) |};
      calls :=
        cs ++ [plt_ion; plt_subplots o (S o)] ++
        setup_calls (S o) (S (S o)) (grid {| self := g; mem := m |}) (cols g) (rows g) ++
        concat ((λ j, frame_calls (S (S o)) (S o) o delay
                        (generation j {| self := g; mem := m |}))
                <$> seq 0 (Z.to_nat steps)) ++
        [plt_ioff; plt_show];
      objects := S (S (S o)) |}).
Proof.
  intros Hvalid. unfold animate.
  do 2 (erewrite UI_bind_Returns by reflexivity; cbn [calls engine drawing objects]).
  erewrite UI_bind_Returns by apply setup_axes_spec.
  assert (range 0 steps = seqZ 0 (Z.of_nat (Z.to_nat steps))) as ->.
  { unfold range, seqZ. rewrite Nat2Z.id. do 2 f_equal. lia. }
  erewrite UI_bind_Returns; cycle 1.
  { apply (animate_loop steps delay o (S o) (S (S o))); [done|done|lia]. }
  ui_steps. unfold emit. cbn [calls engine drawing objects].
  do 2 f_equal. rewrite <- !app_assoc. done.
Qed.

(** X12: [animate(steps, delay)] on a valid engine returns, and leaves the
    engine where [make_n_steps(steps - 1)] leaves it: the last frame is drawn
    without a step after it, so [steps] frames advance the counter by
    [steps - 1], and with [steps <= 1] the engine does not move.  The image
    made is stored in [self.im]; [self.fig] and [self.ax] are not touched. *)
Theorem animate_advances (u : ui) (steps : Z) (delay : Q) :
  valid (engine u) →
  ∃ u', animate steps delay u = (Returns tt, u') ∧
    make_n_steps (steps - 1) (engine u) = (Ok tt, engine u') ∧
    current_step (self (engine u')) =
      current_step (self (engine u)) + Z.max 0 (steps - 1) ∧
    drawing u' = {| fig := fig (drawing u); ax := ax (drawing u);
                    im := Some (S (S (objects u))) |}.
Proof.
  destruct u as [[g m] d cs o]. cbn [engine drawing objects]. intros Hvalid.
  rewrite (animate_spec g m d cs o steps delay Hvalid).
  eexists. split; [done|]. cbn [engine drawing].
  destruct (repeat_step_valid (Z.to_nat steps - 1) _ Hvalid) as (s' & Hrepeat & _ & Hcount).
  unfold generation. rewrite make_n_steps_eq.
  replace (Z.to_nat (steps - 1)) with (Z.to_nat steps - 1)%nat by lia.
  rewrite Hrepeat. split; [done|]. split; [cbn [snd]; lia|done].
Qed.

Lemma animate_advances_witness :
  ∃ u', animate 3 (1 # 5) (fresh_ui blinker) = (Returns tt, u') ∧
    make_n_steps (3 - 1) (engine (fresh_ui blinker)) = (Ok tt, engine u') ∧
    current_step (self (engine u')) =
      current_step (self (engine (fresh_ui blinker))) + Z.max 0 (3 - 1) ∧
    drawing u' = {| fig := fig (drawing (fresh_ui blinker));
                    ax := ax (drawing (fresh_ui blinker));
                    im := Some (S (S (objects (fresh_ui blinker)))) |}.
Proof. apply (animate_advances (fresh_ui blinker) 3 (1 # 5)). apply blinker_valid. Defined.

(** X13: what [animate] draws.  After turning interactive mode on, making
    a figure and setting up the axes, it draws [steps] frames and no more
    (none for [steps <= 0]), then turns interactive mode off and shows the
    figure.  Frame [j], counted from 0, sends to the image the grid [j]
    steps after the one [animate] started from and to the title the counter
    it started from plus [j]. *)
Theorem animate_frames (u : ui) (steps : Z) (delay : Q) :
  valid (engine u) →
  ∃ u', animate steps delay u = (Returns tt, u') ∧
    calls u' =
      calls u ++ [plt_ion; plt_subplots (objects u) (S (objects u))] ++
      setup_calls (S (objects u)) (S (S (objects u))) (grid (engine u))
        (cols (self (engine u))) (rows (self (engine u))) ++
      concat ((λ j, frame_calls (S (S (objects u))) (S (objects u)) (objects u) delay
                      (generation j (engine u)))
              <$> seq 0 (Z.to_nat steps)) ++
      [plt_ioff; plt_show] ∧
    ∀ j, make_n_steps (Z.of_nat j) (engine u) = (Ok tt, generation j (engine u)) ∧
         current_step (self (generation j (engine u))) =
           current_step (self (engine u)) + Z.of_nat j.
Proof.
  destruct u as [[g m] d cs o]. cbn [engine calls objects self]. intros Hvalid.
  rewrite (animate_spec g m d cs o steps delay Hvalid).
  eexists. split; [done|]. split; [done|]. intros j.
  destruct (repeat_step_valid j _ Hvalid) as (s' & Hrepeat & _ & Hcount).
  unfold generation. rewrite make_n_steps_eq, Nat2Z.id, Hrepeat. done.
Qed.

Lemma animate_frames_witness :
  ∃ u', animate 2 (1 # 5) (fresh_ui blinker) = (Returns tt, u') ∧
    calls u' =
      calls (fresh_ui blinker) ++ [plt_ion; plt_subplots 0 1] ++
      setup_calls 1 2 (grid blinker) 3 3 ++
      concat ((λ j, frame_calls 2 1 0 (1 # 5) (generation j blinker)) <$> seq 0 (Z.to_nat 2)) ++
      [plt_ioff; plt_show] ∧
    ∀ j, make_n_steps (Z.of_nat j) blinker = (Ok tt, generation j blinker) ∧
         current_step (self (generation j blinker)) =
           current_step (self blinker) + Z.of_nat j.
Proof. apply (animate_frames (fresh_ui blinker) 2 (1 # 5)). apply blinker_valid. Defined.

Lemma draw_grid_new (fig0 : option handle) (g : GameOfLife) (m : memory)
    (d : attributes) (cs : list call) (o : nat) :
  draw_grid None fig0
    {| engine := {| self := g; mem := m |}; drawing := d; calls := cs; objects := o |} =
  (Returns (Some (S o), Some o),
   {| engine := {| self := g; mem := m |};
      drawing := {| fig := Some o; ax := Some (S o); im := Some (S (S o)) |};
      calls :=
        cs ++ [plt_subplots o (S o)] ++
        setup_calls (S o) (S (S o)) (grid {| self := g; mem := m |}) (cols g) (rows g) ++
        [ax_set_title (S o) (current_step g); plt_tight_layout; plt_show];
      objects := S (S (S o)) |}).
Proof.
  unfold draw_grid.
  erewrite UI_bind_Returns; cycle 1.
  { erewrite UI_bind_Returns by reflexivity. cbn [calls engine drawing objects].
    erewrite UI_bind_Returns by apply setup_axes_spec. ui_steps. reflexivity. }
  ui_steps. unfold mret, UI_ret. do 2 f_equal. by rewrite <- !app_assoc.
Qed.

Lemma draw_grid_again (a f h : handle) (g : GameOfLife) (m : memory)
    (d : attributes) (cs : list call) (o : nat) :
  im d = Some h →
  draw_grid (Some a) (Some f)
    {| engine := {| self := g; mem := m |}; drawing := d; calls := cs; objects := o |} =
  (Returns (Some a, Some f),
   {| engine := {| self := g; mem := m |}; drawing := d;
      calls := cs ++ frame_calls h a f (1 # 1000) {| self := g; mem := m |};
      objects := o |}).
Proof.
  intros Him. unfold draw_grid.
  erewrite UI_bind_Returns; cycle 1.
  { erewrite UI_bind_Returns; [reflexivity|].
    unfold self_im_set_data. erewrite UI_bind_Returns by reflexivity. cbn [drawing].
    rewrite Him. by rewrite (UI_bind_Returns _ _ _ _ _ (life_grid_data_spec _ _ _ _ _)). }
  ui_steps. unfold mret, UI_ret, frame_calls. do 2 f_equal. by rewrite <- !app_assoc.
Qed.

Lemma draw_grid_no_image (a : handle) (fig0 : option handle) (u : ui) :
  im (drawing u) = None →
  draw_grid (Some a) fig0 u = (Raises AttributeError, u).
Proof.
  intros Him. unfold draw_grid. apply UI_bind_Raises, UI_bind_Raises.
  unfold self_im_set_data. erewrite UI_bind_Returns by reflexivity. by rewrite Him.
Qed.

Lemma draw_grid_no_figure (a h : handle) (g : GameOfLife) (m : memory)
    (d : attributes) (cs : list call) (o : nat) :
  im d = Some h →
  draw_grid (Some a) None
    {| engine := {| self := g; mem := m |}; drawing := d; calls := cs; objects := o |} =
  (Raises AttributeError,
   {| engine := {| self := g; mem := m |}; drawing := d;
      calls := cs ++ [im_set_data h (grid {| self := g; mem := m |});
                      ax_set_title a (current_step g)];
      objects := o |}).
Proof.
  intros Him. unfold draw_grid.
  erewrite UI_bind_Returns; cycle 1.
  { erewrite UI_bind_Returns; [reflexivity|].
    unfold self_im_set_data. erewrite UI_bind_Returns by reflexivity. cbn [drawing].
    rewrite Him. by rewrite (UI_bind_Returns _ _ _ _ _ (life_grid_data_spec _ _ _ _ _)). }
  ui_steps. erewrite UI_bind_Raises by reflexivity. by rewrite <- !app_assoc.
Qed.

(** X14: a figure is made once and redrawn after.  [draw_grid()] returns
    the axes and the figure it made and leaves the engine as it is.  Given
    back to [draw_grid] after any method of the engine has run, they make it
    draw one frame, the grid and the counter as they are then, on the image
    stored by the first call: no new figure, axes or image is made and the
    attributes and the engine stay as they are. *)
Theorem draw_grid_redraws (u : ui) :
  ∃ u1,
    draw_grid None None u = (Returns (Some (S (objects u)), Some (objects u)), u1) ∧
    engine u1 = engine u ∧
    drawing u1 = {| fig := Some (objects u); ax := Some (S (objects u));
                    im := Some (S (S (objects u))) |} ∧
    ∀ (method : M state unit) (s2 : state),
      method (engine u1) = (Ok tt, s2) →
      ∃ u2, (in_engine method;; draw_grid (Some (S (objects u))) (Some (objects u))) u1
              = (Returns (Some (S (objects u)), Some (objects u)), u2) ∧
        engine u2 = s2 ∧ drawing u2 = drawing u1 ∧ objects u2 = objects u1 ∧
        calls u2 =
          calls u1 ++
          frame_calls (S (S (objects u))) (S (objects u)) (objects u) (1 # 1000) s2.
Proof.
  destruct u as [[g m] d cs o]. rewrite draw_grid_new. cbn [objects].
  eexists. split; [done|]. split; [done|]. split; [done|].
  intros method [g2 m2] Hmethod. cbn [engine] in Hmethod.
  erewrite UI_bind_Returns; cycle 1.
  { unfold in_engine. cbn [engine]. rewrite Hmethod. reflexivity. }
  cbn [drawing calls objects]. erewrite draw_grid_again by done. by eexists.
Qed.

Lemma draw_grid_redraws_witness :
  ∃ u1,
    draw_grid None None (fresh_ui blinker) = (Returns (Some 1%nat, Some 0%nat), u1) ∧
    ∃ u2, (in_engine make_step;; draw_grid (Some 1%nat) (Some 0%nat)) u1
            = (Returns (Some 1%nat, Some 0%nat), u2) ∧
      engine u2 = generation 1 blinker ∧ drawing u2 = drawing u1 ∧
      objects u2 = objects u1 ∧
      calls u2 = calls u1 ++ frame_calls 2 1 0 (1 # 1000) (generation 1 blinker).
Proof.
  destruct (draw_grid_redraws (fresh_ui blinker)) as (u1 & Hdraw & Heng & _ & Hredraw).
  exists u1. split; [exact Hdraw|].
  apply (Hredraw make_step (generation 1 blinker)).
  rewrite Heng. vm_compute. reflexivity.
Defined.

(** X15: [draw_grid] with axes given raises [AttributeError] in two cases.
    When no image was ever stored ([self.im] is [None]) it raises at once,
    having drawn and changed nothing.  When the figure is left out (its
    default is [None]) it first sends the grid to the image and the counter
    to the title, and raises then, at the canvas of the figure. *)
Theorem draw_grid_attribute_errors (u : ui) (a : handle) :
  (im (drawing u) = None →
   ∀ fig0, draw_grid (Some a) fig0 u = (Raises AttributeError, u)) ∧
  (∀ h, im (drawing u) = Some h →
   ∃ u', draw_grid (Some a) None u = (Raises AttributeError, u') ∧
     engine u' = engine u ∧ drawing u' = drawing u ∧ objects u' = objects u ∧
     calls u' = calls u ++ [im_set_data h (grid (engine u));
                            ax_set_title a (current_step (self (engine u)))]).
Proof.
  split.
  - intros Him fig0. by apply draw_grid_no_image.
  - intros h Him. destruct u as [[g m] d cs o]. cbn [drawing] in Him.
    rewrite (draw_grid_no_figure a h) by done. by eexists.
Qed.

Lemma draw_grid_attribute_errors_witness :
  (∀ fig0, draw_grid (Some 5%nat) fig0 (fresh_ui blinker)
           = (Raises AttributeError, fresh_ui blinker)) ∧
  (∃ u', draw_grid (Some 1%nat) None drawn_blinker = (Raises AttributeError, u') ∧
     engine u' = engine drawn_blinker ∧ drawing u' = drawing drawn_blinker ∧
     objects u' = objects drawn_blinker ∧
     calls u' = calls drawn_blinker ++
                [im_set_data 2%nat (grid (engine drawn_blinker));
                 ax_set_title 1%nat (current_step (self (engine drawn_blinker)))]).
Proof.
  split.
  - apply (proj1 (draw_grid_attribute_errors (fresh_ui blinker) 5%nat)). reflexivity.
  - apply (proj2 (draw_grid_attribute_errors drawn_blinker 1%nat) 2%nat). reflexivity.
Defined.
